(** * Storage layer of the jewelry shop: a shallow embedding

    The repository layer ([DatabaseStorage], server/storage.ts) talks to a
    PostgreSQL database through drizzle-orm.  Here a table is the list of its
    rows, a row is a finite map from column keys to values (the JavaScript
    object drizzle hands back), and every repository method is a function in
    a small state-and-exception monad over the database. *)

From Stdlib Require Import ZArith List Ascii String DecimalString DecimalNat
  Permutation Lia Sorted.
From stdpp Require Import base option list strings gmap sorting.

Local Open Scope string_scope.
Local Open Scope Z_scope.

(** ** JavaScript strings: [String(n)] and [padStart] *)

Module JsString.

(** [String(n)] for an integral number. *)
Definition of_nat (n : nat) : string :=
  NilEmpty.string_of_uint (Nat.to_uint n).

Definition of_Z (z : Z) : string :=
  NilEmpty.string_of_int (Z.to_int z).

Fixpoint repeat_char (c : ascii) (k : nat) : string :=
  match k with
  | O => EmptyString
  | S k' => String c (repeat_char c k')
  end.

(** [s.padStart(target, c)] with a one-character pad string. *)
Definition padStart (target : nat) (c : ascii) (s : string) : string :=
  repeat_char c (target - String.length s) +:+ s.

(** Reading a decimal numeral back; leading zeros are allowed. *)
Definition to_nat (s : string) : option nat :=
  match NilEmpty.uint_of_string s with
  | Some d => Some (Nat.of_uint d)
  | None => None
  end.

End JsString.

(** ** Dates

    A [Date] is a reading of the clock, broken down the way the getters of a
    JavaScript [Date] and a PostgreSQL [timestamp] (without time zone) show
    it: full year, month index (0 = January), day of the month and the
    milliseconds elapsed since midnight.  A [timestamp] column holds such a
    reading and no time zone.  A JavaScript [Date] is an instant: the local
    getters read it in the zone of the application, and drizzle sends it to
    the store as [toISOString] prints it, that is as its reading in UTC.
    Which zone a reading is in is said where it matters. *)

Module JsDate.

Record Date := mkDate { year : Z; month : Z; date : Z; time : Z }.

Definition getFullYear (d : Date) : Z := year d.
Definition getMonth (d : Date) : Z := month d.

Definition isLeap (y : Z) : bool :=
  ((y mod 4 =? 0) && negb (y mod 100 =? 0)) || (y mod 400 =? 0).

Definition daysInMonth (y m : Z) : Z :=
  if m =? 1 then (if isLeap y then 29 else 28)
  else if (m =? 3) || (m =? 5) || (m =? 8) || (m =? 10) then 30
  else 31.

Definition msOfDay (h mi s ms : Z) : Z := ((h * 60 + mi) * 60 + s) * 1000 + ms.

(** [new Date(y, m, d, h, mi, s, ms)] for the two shapes the storage layer
    builds: a month index in [0, 12] (12 rolls over to January of the next
    year) and a day that is either within the month or 0, which denotes the
    last day of the month before. *)
Definition make (y m d h mi s ms : Z) : Date :=
  let y1 := y + m / 12 in
  let m1 := m mod 12 in
  if d =? 0 then
    let y2 := if m1 =? 0 then y1 - 1 else y1 in
    let m2 := if m1 =? 0 then 11 else m1 - 1 in
    mkDate y2 m2 (daysInMonth y2 m2) (msOfDay h mi s ms)
  else mkDate y1 m1 d (msOfDay h mi s ms).

(** A date as a calendar shows it. *)
Definition valid (d : Date) : Prop :=
  0 <= month d <= 11 /\ 1 <= date d <= daysInMonth (year d) (month d) /\
  0 <= time d < 86400000.

(** Chronological order is the lexicographic order of the fields. *)
Definition compare (a b : Date) : comparison :=
  match year a ?= year b with
  | Eq => match month a ?= month b with
          | Eq => match date a ?= date b with
                  | Eq => time a ?= time b
                  | c => c
                  end
          | c => c
          end
  | c => c
  end.

Definition leb (a b : Date) : bool :=
  match compare a b with Gt => false | _ => true end.

Definition le (a b : Date) : Prop :=
  year a < year b \/
  (year a = year b /\
   (month a < month b \/
    (month a = month b /\
     (date a < date b \/ (date a = date b /\ time a <= time b))))).

End JsDate.

Export JsDate(Date).

(** ** Values, rows and tables *)

(** The content of a [jsonb] column. Numbers keep their JSON literal. *)
#[local] Unset Elimination Schemes.
Inductive json : Type :=
| JNull
| JBool (b : bool)
| JNumber (literal : string)
| JString (s : string)
| JArray (items : list json)
| JObject (fields : list (string * json)).
#[local] Set Elimination Schemes.

(** What a property of a row object can hold. [undefined] is the absence of
    the key. *)
Inductive value : Type :=
| VNull
| VText (s : string)
| VBool (b : bool)
| VInt (n : Z)
| VTime (d : Date)
| VJson (j : json).

Abbreviation row := (gmap string value).

(** [!v] is false on these values only. *)
Definition truthy (v : option value) : bool :=
  match v with
  | None | Some VNull => false
  | Some (VText s) => negb (String.eqb s "")
  | Some (VBool b) => b
  | Some (VInt n) => negb (n =? 0)
  | Some (VTime _) | Some (VJson _) => true
  end.

(** [a === b] on property values. Two objects (dates, arrays) are equal only
    when they are the same object, which two rows never share. *)
Definition strict_eq (a b : option value) : bool :=
  match a, b with
  | None, None => true
  | Some VNull, Some VNull => true
  | Some (VText s), Some (VText t) => String.eqb s t
  | Some (VBool x), Some (VBool y) => Bool.eqb x y
  | Some (VInt x), Some (VInt y) => x =? y
  | _, _ => false
  end.

(** SQL [column = parameter]: a NULL (or missing) column never matches. *)
Definition sql_eq (c : option value) (p : value) : bool :=
  match c, p with
  | Some (VText s), VText t => String.eqb s t
  | Some (VBool x), VBool y => Bool.eqb x y
  | Some (VInt x), VInt y => x =? y
  | Some (VTime x), VTime y =>
      match JsDate.compare x y with Eq => true | _ => false end
  | _, _ => false
  end.

Definition sql_gte (c : option value) (p : Date) : bool :=
  match c with
  | Some (VTime x) => JsDate.leb p x
  | _ => false
  end.

Definition sql_lte (c : option value) (p : Date) : bool :=
  match c with
  | Some (VTime x) => JsDate.leb x p
  | _ => false
  end.

(** The database: one list of rows per table the storage class touches. *)
Record Db := mkDb {
  users : list row;
  products : list row;
  bills : list row;
  estimates : list row;
  categories : list row;
  homeSections : list row;
  homeSectionItems : list row;
}.

(** A table is named by how to read it and how to write it back. *)
Record table := mkTable {
  rows : Db -> list row;
  put : list row -> Db -> Db;
  columns : list string;
}.

Definition usersT : table :=
  mkTable users
    (fun l db => mkDb l (products db) (bills db) (estimates db) (categories db)
                   (homeSections db) (homeSectionItems db))
    ["id"; "email"; "password"; "name"; "phone"; "role"; "stripeCustomerId";
     "stripeSubscriptionId"; "otpCode"; "otpExpiry"; "otpVerified"; "createdAt"].

Definition productsT : table :=
  mkTable products
    (fun l db => mkDb (users db) l (bills db) (estimates db) (categories db)
                   (homeSections db) (homeSectionItems db))
    ["id"; "name"; "description"; "category"; "subCategory"; "material";
     "priceInr"; "priceBhd"; "grossWeight"; "netWeight"; "purity"; "gemstones";
     "size"; "gender"; "occasion"; "stock"; "images"; "isActive"; "isFeatured";
     "isNewArrival"; "metalType"; "isMetalPriceBased";
     "makingChargesPercentage"; "customPriceInr"; "customPriceBhd";
     "productCode"; "stones"; "goldRateAtCreation"; "barcode";
     "barcodeImageUrl"; "createdAt"].

Definition billsT : table :=
  mkTable bills
    (fun l db => mkDb (users db) (products db) l (estimates db) (categories db)
                   (homeSections db) (homeSectionItems db))
    ["id"; "billNumber"; "customerName"; "customerEmail"; "customerPhone";
     "customerAddress"; "currency"; "subtotal"; "makingCharges"; "gst"; "vat";
     "discount"; "total"; "paidAmount"; "paymentMethod"; "items"; "createdAt";
     "updatedAt"].

Definition estimatesT : table :=
  mkTable estimates
    (fun l db => mkDb (users db) (products db) (bills db) l (categories db)
                   (homeSections db) (homeSectionItems db))
    ["id"; "quotationNo"; "customerName"; "customerPhone"; "customerEmail";
     "productName"; "category"; "purity"; "grossWeight"; "netWeight";
     "productCode"; "metalValue"; "makingChargesPercentage"; "makingCharges";
     "stoneDiamondChargesPercentage"; "stoneDiamondCharges";
     "wastagePercentage"; "wastageCharges"; "hallmarkingCharges"; "subtotal";
     "totalAmount"; "currency"; "validUntil"; "status"; "sentToWhatsApp";
     "createdAt"].

Definition categoriesT : table :=
  mkTable categories
    (fun l db => mkDb (users db) (products db) (bills db) (estimates db) l
                   (homeSections db) (homeSectionItems db))
    ["id"; "name"; "slug"; "description"; "parentId"; "displayOrder";
     "isActive"; "createdAt"; "updatedAt"].

Definition homeSectionsT : table :=
  mkTable homeSections
    (fun l db => mkDb (users db) (products db) (bills db) (estimates db)
                   (categories db) l (homeSectionItems db))
    ["id"; "title"; "subtitle"; "description"; "layoutType"; "isActive";
     "displayOrder"; "backgroundColor"; "textColor"; "createdAt"; "updatedAt"].

Definition homeSectionItemsT : table :=
  mkTable homeSectionItems
    (fun l db => mkDb (users db) (products db) (bills db) (estimates db)
                   (categories db) (homeSections db) l)
    ["id"; "sectionId"; "productId"; "displayName"; "displayPrice";
     "displayPriceInr"; "displayPriceBhd"; "position"; "size"; "createdAt"].

(** Column defaults of the two tables the modelled methods insert into; the
    generated key and [now()] come from the store. *)
Definition bills_defaults (uuid : string) (now : Date) : row :=
  list_to_map
    [("id", VText uuid); ("currency", VText "INR"); ("vat", VText "0");
     ("discount", VText "0"); ("paymentMethod", VText "CASH");
     ("createdAt", VTime now); ("updatedAt", VTime now)].

Definition estimates_defaults (uuid : string) (now : Date) : row :=
  list_to_map
    [("id", VText uuid); ("stoneDiamondChargesPercentage", VText "0");
     ("stoneDiamondCharges", VText "0"); ("wastagePercentage", VText "2");
     ("hallmarkingCharges", VText "450"); ("currency", VText "INR");
     ("status", VText "PENDING"); ("sentToWhatsApp", VBool false);
     ("createdAt", VTime now)].

(** ** The monad of repository methods

    A method runs against the database, may change it, and either returns a
    value or raises. *)

Inductive outcome (A : Type) : Type :=
| Returned (a : A)
| Raised (msg : string).
Arguments Returned {A} a.
Arguments Raised {A} msg.

Definition M (A : Type) : Type := Db -> outcome A * Db.

Definition ret {A} (a : A) : M A := fun db => (Returned a, db).

Definition throw {A} (msg : string) : M A := fun db => (Raised msg, db).

Definition bind {A B} (m : M A) (k : A -> M B) : M B :=
  fun db =>
    match m db with
    | (Returned a, db') => k a db'
    | (Raised e, db') => (Raised e, db')
    end.

Notation "'await' x <- m 'in' k" := (bind m (fun x => k))
  (at level 10, x name, m at level 100, k at level 200,
   format "'[v' 'await'  x  <-  m  'in' '/' k ']'").

(** ** drizzle statements *)

Module Drizzle.

(** Keep the properties of an object that name a column; the statement
    builders walk the table's columns and ignore every other key. *)
Definition restrict (cols : list string) (o : row) : row :=
  filter (fun kv => kv.1 ∈ cols) o.

Definition nulls (cols : list string) : row :=
  list_to_map (map (fun c => (c, VNull)) cols).

(** [db.select().from(t).where(p)] *)
Definition select (t : table) (p : row -> bool) : M (list row) :=
  fun db => (Returned (List.filter p (rows t db)), db).

(** [db.update(t).set(o).where(p).returning()], read as the SQL statement
    it stands for; an object that names no column changes nothing. *)
Definition apply_set (t : table) (o : row) (r : row) : row :=
  restrict (columns t) o ∪ r.

Definition update (t : table) (o : row) (p : row -> bool) : M (list row) :=
  fun db =>
    let rs := rows t db in
    (Returned (map (apply_set t o) (List.filter p rs)),
     put t (map (fun r => if p r then apply_set t o r else r) rs) db).

(** [.set(o)] with an object the caller supplies: drizzle throws when [o]
    has no entry, and the store rejects the statement when no entry of [o]
    names a column (nothing stands between [set] and [where]). The methods
    whose object always names a column use [update] directly. *)
Definition update_set (t : table) (o : row) (p : row -> bool) : M (list row) :=
  if bool_decide (o = ∅) then throw "No values to set"
  else if bool_decide (restrict (columns t) o = ∅)
  then throw "syntax error at or near where"
  else update t o p.

(** [db.delete(t).where(p)], giving the result's [rowCount]. *)
Definition delete (t : table) (p : row -> bool) : M nat :=
  fun db =>
    let rs := rows t db in
    (Returned (List.length (List.filter p rs)),
     put t (List.filter (fun r => negb (p r)) rs) db).

(** [db.insert(t).values(o).returning()]; [dflt] holds the column defaults
    the store fills in, every other column left out is NULL. *)
Definition new_row (t : table) (dflt : row) (o : row) : row :=
  restrict (columns t) o ∪ dflt ∪ nulls (columns t).

Definition insert (t : table) (dflt : row) (o : row) : M (list row) :=
  fun db =>
    let r := new_row t dflt o in
    (Returned [r], put t (rows t db ++ [r]) db).

(** [ORDER BY]: ascending puts NULL last, descending first. *)
Definition cmp_value (a b : option value) : comparison :=
  match a, b with
  | Some (VInt x), Some (VInt y) => x ?= y
  | Some (VText x), Some (VText y) => String.compare x y
  | Some (VTime x), Some (VTime y) => JsDate.compare x y
  | Some (VBool x), Some (VBool y) => Nat.compare (Nat.b2n x) (Nat.b2n y)
  | (None | Some VNull), (None | Some VNull) => Eq
  | (None | Some VNull), _ => Gt
  | _, (None | Some VNull) => Lt
  | _, _ => Eq
  end.

Inductive order_key := asc (c : string) | desc (c : string).

Definition cmp_key (k : order_key) (a b : row) : comparison :=
  match k with
  | asc c => cmp_value (a !! c) (b !! c)
  | desc c => CompOpp (cmp_value (a !! c) (b !! c))
  end.

Fixpoint cmp_keys (ks : list order_key) (a b : row) : comparison :=
  match ks with
  | [] => Eq
  | k :: ks' => match cmp_key k a b with Eq => cmp_keys ks' a b | c => c end
  end.

Fixpoint insert_sorted {A} (cmp : A -> A -> comparison) (x : A) (l : list A)
  : list A :=
  match l with
  | [] => [x]
  | y :: l' =>
      match cmp x y with
      | Gt => y :: insert_sorted cmp x l'
      | _ => x :: l
      end
  end.

(** Rows that tie on every key keep their table order. *)
Definition sort_by {A} (cmp : A -> A -> comparison) (l : list A) : list A :=
  fold_right (insert_sorted cmp) [] l.

Definition orderBy (ks : list order_key) (l : list row) : list row :=
  sort_by (cmp_keys ks) l.

(** [a.innerJoin(b, eq(a.ca, b.cb))]: every pair of rows whose columns are
    both non-NULL and equal. *)
Definition on_eq (ca cb : string) (x y : row) : bool :=
  match y !! cb with
  | Some v => sql_eq (x !! ca) v
  | None => false
  end.

Definition innerJoin (a b : table) (on : row -> row -> bool)
  : Db -> list (row * row) :=
  fun db =>
    flat_map (fun x => map (fun y => (x, y)) (List.filter (on x) (rows b db)))
             (rows a db).

End Drizzle.

(** ** Constraints of the schema

    An [INSERT] is checked against the [NOT NULL] and [UNIQUE] (primary key
    included) constraints the schema declares for the table. What the store
    makes of the type of a value is not modelled. *)

Record constraints := mkConstraints {
  not_null : list string;
  unique : list string;
}.

Definition bills_constraints : constraints :=
  mkConstraints
    ["id"; "billNumber"; "customerName"; "customerEmail"; "customerPhone";
     "customerAddress"; "subtotal"; "makingCharges"; "gst"; "vat"; "discount";
     "total"; "paidAmount"; "items"]
    ["id"; "billNumber"].

Definition estimates_constraints : constraints :=
  mkConstraints
    ["id"; "quotationNo"; "customerName"; "customerPhone"; "productName";
     "category"; "purity"; "grossWeight"; "netWeight"; "productCode";
     "metalValue"; "makingChargesPercentage"; "makingCharges";
     "wastageCharges"; "subtotal"; "totalAmount"; "currency"; "validUntil";
     "status"]
    ["id"].

Definition is_null (v : option value) : bool :=
  match v with
  | None | Some VNull => true
  | _ => false
  end.

Definition lacks_required (c : constraints) (r : row) : bool :=
  existsb (fun k => is_null (r !! k)) (not_null c).

(** Two NULLs never collide. *)
Definition collides (k : string) (r r' : row) : bool :=
  match r !! k with
  | Some v => sql_eq (r' !! k) v
  | None => false
  end.

Definition duplicates (c : constraints) (r : row) (l : list row) : bool :=
  existsb (fun k => existsb (collides k r) l) (unique c).

Definition insert_checked (t : table) (c : constraints) (dflt : row) (o : row)
  : M (list row) :=
  fun db =>
    let r := Drizzle.new_row t dflt o in
    if lacks_required c r
    then (Raised "null value violates not-null constraint", db)
    else if duplicates c r (rows t db)
    then (Raised "duplicate key value violates unique constraint", db)
    else (Returned [r], put t (rows t db ++ [r])%list db).

(** ** The repository: [class DatabaseStorage] *)

Definition col (c : string) (v : value) : row -> bool :=
  fun r => sql_eq (r !! c) v.

(** [v || d] *)
Definition js_or (v : option value) (d : value) : value :=
  match v with
  | Some x => if truthy v then x else d
  | None => d
  end.

(** The entry of a category tree: [{...mainCat, children}]. *)
Record CategoryWithChildren := mkCategoryWithChildren {
  category : row;
  children : list row;
}.

(** A section item with the product row joined to it:
    [{id, sectionId, ..., product}]. *)
Record HomeSectionItemWithProduct := mkHomeSectionItemWithProduct {
  item : row;
  product : row;
}.

Section Storage.

(** bcryptjs: hashing takes the cost and the salt it draws; comparison
    checks a password against a stored hash. *)
Variable bcrypt_hash : string -> nat -> string -> string.
Variable bcrypt_compare : string -> string -> bool.

(** JavaScript numbers: [Number(v)], the literal [0], [+] and [-]; and the
    text a [numeric(12,2)] column holds once such a number is written to
    it. The development is parametric in them, so it holds for IEEE 754
    doubles in particular. *)
Variable num : Type.
Variable Number : option value -> num.
Variable num_zero : num.
Variable num_add num_sub : num -> num -> num.
Variable pg_numeric : num -> string.

(** Whether a number is beyond what a [numeric(12,2)] column holds; the
    store rejects a statement that writes such a number. *)
Variable numeric_overflow : num -> bool.

(** [new Date(v)] for a value that is not a [Date]; [None] is an Invalid
    Date. *)
Variable Date_parse : option value -> option Date.

(** [d.toISOString()], which is what drizzle sends for a [Date]: the reading
    in UTC of the instant that the application's zone reads as [d]. *)
Variable toISOString : Date -> Date.

(** [Number(v || 0)] *)
Definition Number_or_0 (v : option value) : num :=
  if truthy v then Number v else num_zero.

(** *** Users *)

Definition getUserByEmail (email : string) : M (option row) :=
  await rs <- Drizzle.select usersT (col "email" (VText email)) in
  ret (head rs).

(** [bcrypt.compare] rejects a stored hash that is not a string. *)
Definition authenticateUser (email password : string) : M (option row) :=
  await user <- getUserByEmail email in
  match user with
  | None => ret None
  | Some u =>
      match u !! "password" with
      | Some (VText hash) =>
          let isValid := bcrypt_compare password hash in
          ret (if isValid then Some u else None)
      | _ => throw "Illegal arguments"
      end
  end.

Definition updateStripeCustomerId (userId customerId : string) : M (option row) :=
  await rs <- Drizzle.update usersT
                {[ "stripeCustomerId" := VText customerId ]}
                (col "id" (VText userId)) in
  ret (head rs).

Definition updateUserStripeInfo (userId customerId subscriptionId : string)
  : M (option row) :=
  await rs <- Drizzle.update usersT
                (<["stripeCustomerId" := VText customerId]>
                 {[ "stripeSubscriptionId" := VText subscriptionId ]})
                (col "id" (VText userId)) in
  ret (head rs).

Definition updateUserOtp (userId otpCode : string) (otpExpiry : Date)
  : M (option row) :=
  await rs <- Drizzle.update usersT
                (<["otpCode" := VText otpCode]>
                 (<["otpExpiry" := VTime otpExpiry]>
                  {[ "otpVerified" := VBool false ]}))
                (col "id" (VText userId)) in
  ret (head rs).

Definition updateUserOtpVerified (userId : string) (verified : bool)
  : M (option row) :=
  await rs <- Drizzle.update usersT {[ "otpVerified" := VBool verified ]}
                (col "id" (VText userId)) in
  ret (head rs).

Definition updateUserPassword (salt : string) (userId newPassword : string)
  : M (option row) :=
  let hashedPassword := bcrypt_hash newPassword 10 salt in
  await rs <- Drizzle.update usersT {[ "password" := VText hashedPassword ]}
                (col "id" (VText userId)) in
  ret (head rs).

Definition clearUserOtp (userId : string) : M (option row) :=
  await rs <- Drizzle.update usersT
                (<["otpCode" := VNull]>
                 (<["otpExpiry" := VNull]> {[ "otpVerified" := VBool false ]}))
                (col "id" (VText userId)) in
  ret (head rs).

(** *** Products *)

Definition getAllProducts : M (list row) :=
  await rs <- Drizzle.select productsT (col "isActive" (VBool true)) in
  ret (Drizzle.orderBy [Drizzle.desc "createdAt"] rs).

Definition getProduct (id : string) : M (option row) :=
  await rs <- Drizzle.select productsT
                (fun r => col "id" (VText id) r && col "isActive" (VBool true) r) in
  ret (head rs).

Definition getProductsByCategory (cat : string) : M (list row) :=
  await rs <- Drizzle.select productsT
                (fun r => col "category" (VText cat) r && col "isActive" (VBool true) r) in
  ret (Drizzle.orderBy [Drizzle.desc "createdAt"] rs).

Definition updateProduct (id : string) (data : row) : M (option row) :=
  await rs <- Drizzle.update_set productsT data (col "id" (VText id)) in
  ret (head rs).

Definition deleteProduct (id : string) : M bool :=
  await rs <- Drizzle.update productsT {[ "isActive" := VBool false ]}
                (col "id" (VText id)) in
  ret (bool_decide (is_Some (head rs))).

(** *** Bills *)

Definition bill_total_update (billData : row) : num :=
  num_sub
    (num_add
       (num_add (Number_or_0 (billData !! "subtotal"))
                (Number_or_0 (billData !! "makingCharges")))
       (Number_or_0 (billData !! "gst")))
    (Number_or_0 (billData !! "discount")).

(** [bills.id] is a [uuid] column, and the store rejects a statement whose
    key is not of that shape; the definition is for keys that are. *)
Definition updateBill (now : Date) (id : string) (billData : row)
  : M (option row) :=
  let total := bill_total_update billData in
  await rs <- Drizzle.update billsT
                (<["updatedAt" := VTime now]>
                 (<["total" := VText (pg_numeric total)]> billData))
                (col "id" (VText id)) in
  ret (head rs).

Definition bill_total_create (bill : row) : num :=
  num_sub
    (num_add
       (num_add (Number (bill !! "subtotal")) (Number (bill !! "makingCharges")))
       (Number (bill !! "gst")))
    (Number_or_0 (bill !! "discount")).

(** The method returns the array that [returning()] yields. [created_at]
    and [updated_at] name no property of the table and are ignored. *)
Definition createBill (uuid : string) (now : Date) (bill : row) : M (list row) :=
  let total := bill_total_create bill in
  if numeric_overflow total then throw "numeric field overflow"
  else
    insert_checked billsT bills_constraints (bills_defaults uuid now)
      (<["updated_at" := VTime now]>
       (<["created_at" := VTime now]>
        (<["total" := VText (pg_numeric total)]> bill))).

(** *** Estimates *)

Definition startOfMonth (now : Date) : Date :=
  JsDate.make (JsDate.getFullYear now) (JsDate.getMonth now) 1 0 0 0 0.

Definition endOfMonth (now : Date) : Date :=
  JsDate.make (JsDate.getFullYear now) (JsDate.getMonth now + 1) 0 23 59 59 999.

(** [startOfMonth] and [endOfMonth] are built from the local year and
    month; the store compares its [createdAt] readings with what it is sent
    for them. *)
Definition inMonthOf (now : Date) (r : row) : bool :=
  sql_gte (r !! "createdAt") (toISOString (startOfMonth now))
  && sql_lte (r !! "createdAt") (toISOString (endOfMonth now)).

Definition quotationNo_of (now : Date) (count : nat) : string :=
  let year := JsDate.getFullYear now in
  let month :=
    JsString.padStart 2 "0" (JsString.of_Z (JsDate.getMonth now + 1)) in
  let sequentialNumber := JsString.padStart 3 "0" (JsString.of_nat (count + 1)) in
  "PJ-QTN-" +:+ JsString.of_Z year +:+ "-" +:+ month +:+ "-" +:+ sequentialNumber.

(** [v instanceof Date ? v : new Date(v)] *)
Definition as_Date (v : option value) : option Date :=
  match v with
  | Some (VTime d) => Some d
  | _ => Date_parse v
  end.

(** [now] is the local reading of the clock that [new Date()] reads when the
    method starts, [dbNow] what the store's [now()] reads, in the zone of its
    session, when the row is inserted. An Invalid Date cannot be sent:
    [toISOString] throws a [RangeError]. *)
Definition createEstimate (uuid : string) (now dbNow : Date)
    (insertEstimate : row) : M (option row) :=
  await monthlyEstimates <- Drizzle.select estimatesT (inMonthOf now) in
  let quotationNo := quotationNo_of now (List.length monthlyEstimates) in
  match as_Date (insertEstimate !! "validUntil") with
  | None => throw "Invalid time value"
  | Some validUntil =>
      let estimateData :=
        <["validUntil" := VTime validUntil]>
          (<["quotationNo" := VText quotationNo]> insertEstimate) in
      await rs <- insert_checked estimatesT estimates_constraints
                    (estimates_defaults uuid dbNow) estimateData in
      ret (head rs)
  end.

(** [{...updateData, ...(updateData.validUntil && {validUntil: ...}),
    updatedAt: new Date()}]; the table has no [updatedAt]. *)
Definition updateEstimate (now : Date) (id : string) (updateData : row)
  : M row :=
  let converted :=
    if truthy (updateData !! "validUntil")
    then match as_Date (updateData !! "validUntil") with
         | Some validUntil => Some (<["validUntil" := VTime validUntil]> updateData)
         | None => None
         end
    else Some updateData in
  match converted with
  | None => throw "Invalid time value"
  | Some data =>
      await rs <- Drizzle.update_set estimatesT (<["updatedAt" := VTime now]> data)
                    (col "id" (VText id)) in
      match head rs with
      | None => throw "Estimate not found"
      | Some estimate => ret estimate
      end
  end.

(** *** Categories *)

Definition getAllCategories : M (list row) :=
  await rs <- Drizzle.select categoriesT (fun _ => true) in
  ret (Drizzle.orderBy [Drizzle.asc "displayOrder"; Drizzle.asc "name"] rs).

Definition getCategoriesHierarchy : M (list CategoryWithChildren) :=
  await allCategories <- getAllCategories in
  let mainCategories :=
    List.filter (fun cat => negb (truthy (cat !! "parentId"))) allCategories in
  ret (map (fun mainCat =>
              mkCategoryWithChildren mainCat
                (List.filter
                   (fun cat => strict_eq (cat !! "parentId") (mainCat !! "id"))
                   allCategories))
           mainCategories).

Definition getCategory (id : string) : M (option row) :=
  await rs <- Drizzle.select categoriesT (col "id" (VText id)) in
  ret (head rs).

Definition getSubCategories (parentId : string) : M (list row) :=
  await rs <- Drizzle.select categoriesT (col "parentId" (VText parentId)) in
  ret (Drizzle.orderBy [Drizzle.asc "displayOrder"; Drizzle.asc "name"] rs).

Definition updateCategory (now : Date) (id : string) (updateData : row)
  : M (option row) :=
  await rs <- Drizzle.update categoriesT
                (<["updatedAt" := VTime now]> updateData)
                (col "id" (VText id)) in
  ret (head rs).

Definition deleteCategory (id : string) : M bool :=
  await children <- getSubCategories id in
  if (0 <? List.length children)%nat then ret false
  else
    await cat <- getCategory id in
    let slug :=
      js_or (match cat with Some c => c !! "slug" | None => None end)
            (VText "") in
    await productsUsingCategory <-
      Drizzle.select productsT (col "category" slug) in
    if (0 <? List.length productsUsingCategory)%nat then ret false
    else
      await rowCount <- Drizzle.delete categoriesT (col "id" (VText id)) in
      ret (0 <? rowCount)%nat.

(** *** Home sections *)

Definition updateHomeSection (now : Date) (id : string) (updateData : row)
  : M (option row) :=
  await rs <- Drizzle.update homeSectionsT
                (<["updatedAt" := VTime now]> updateData)
                (col "id" (VText id)) in
  ret (head rs).

Definition getHomeSectionItems (sectionId : string)
  : M (list HomeSectionItemWithProduct) :=
  fun db =>
    let joined :=
      Drizzle.innerJoin homeSectionItemsT productsT
        (Drizzle.on_eq "productId" "id") db in
    let selected :=
      List.filter (fun ip => col "sectionId" (VText sectionId) ip.1) joined in
    let ordered :=
      Drizzle.sort_by
        (fun a b => Drizzle.cmp_keys [Drizzle.asc "position"] a.1 b.1)
        selected in
    (Returned (map (fun ip => mkHomeSectionItemWithProduct ip.1 ip.2) ordered),
     db).

Definition updateHomeSectionItem (itemId : string) (updateData : row)
  : M (option row) :=
  await rs <- Drizzle.update_set homeSectionItemsT updateData
                (col "id" (VText itemId)) in
  ret (head rs).

End Storage.

Arguments Number_or_0 {num} Number num_zero v.
Arguments bill_total_update {num} Number num_zero num_add num_sub billData.
Arguments bill_total_create {num} Number num_zero num_add num_sub bill.
Arguments updateBill {num} Number num_zero num_add num_sub pg_numeric now id billData.
Arguments createBill {num} Number num_zero num_add num_sub pg_numeric
  numeric_overflow uuid now bill.

(** ** The rest of the repository

    The methods below complete the class. *)

Definition users_constraints : constraints :=
  mkConstraints ["id"; "email"; "password"; "name"; "role"] ["id"; "email"].

Definition products_constraints : constraints :=
  mkConstraints
    ["id"; "name"; "description"; "category"; "priceInr"; "priceBhd";
     "grossWeight"; "netWeight"; "stock"; "images"; "isActive"; "isFeatured";
     "isNewArrival"; "isMetalPriceBased"]
    ["id"; "productCode"].

Definition categories_constraints : constraints :=
  mkConstraints ["id"; "name"; "slug"; "isActive"] ["id"; "slug"].

Definition homeSections_constraints : constraints :=
  mkConstraints ["id"; "title"; "layoutType"; "isActive"] ["id"].

Definition homeSectionItems_constraints : constraints :=
  mkConstraints ["id"; "sectionId"; "productId"; "position"] ["id"].

Definition users_defaults (uuid : string) (now : Date) : row :=
  list_to_map
    [("id", VText uuid); ("role", VText "guest"); ("otpVerified", VBool false);
     ("createdAt", VTime now)].

Definition products_defaults (uuid : string) (now : Date) : row :=
  list_to_map
    [("id", VText uuid); ("material", VText "GOLD_22K");
     ("gemstones", VJson (JArray [])); ("gender", VText "UNISEX");
     ("stock", VInt 0); ("images", VJson (JArray []));
     ("isActive", VBool true); ("isFeatured", VBool false);
     ("isNewArrival", VBool false); ("metalType", VText "GOLD");
     ("isMetalPriceBased", VBool false);
     ("makingChargesPercentage", VText "15.00"); ("stones", VText "None");
     ("createdAt", VTime now)].

Definition categories_defaults (uuid : string) (now : Date) : row :=
  list_to_map
    [("id", VText uuid); ("displayOrder", VInt 0); ("isActive", VBool true);
     ("createdAt", VTime now); ("updatedAt", VTime now)].

Definition homeSections_defaults (uuid : string) (now : Date) : row :=
  list_to_map
    [("id", VText uuid); ("layoutType", VText "grid"); ("isActive", VBool true);
     ("displayOrder", VInt 0); ("backgroundColor", VText "#fff8e1");
     ("textColor", VText "#8b4513"); ("createdAt", VTime now);
     ("updatedAt", VTime now)].

Definition homeSectionItems_defaults (uuid : string) (now : Date) : row :=
  list_to_map
    [("id", VText uuid); ("position", VInt 0); ("size", VText "normal");
     ("createdAt", VTime now)].

(** [isNull(column)] *)
Definition col_is_null (c : string) : row -> bool :=
  fun r => is_null (r !! c).

(** [v ?? d] *)
Definition js_nullish (v : option value) (d : value) : value :=
  match v with
  | None | Some VNull => d
  | Some x => x
  end.

Record HomeSectionWithItems := mkHomeSectionWithItems {
  section : row;
  items : list HomeSectionItemWithProduct;
}.

Section MoreStorage.

Variable bcrypt_hash : string -> nat -> string -> string.

(** *** Users *)

Definition getUser (id : string) : M (option row) :=
  await rs <- Drizzle.select usersT (col "id" (VText id)) in
  ret (head rs).

Definition getUserByPhone (phone : string) : M (option row) :=
  await rs <- Drizzle.select usersT (col "phone" (VText phone)) in
  ret (head rs).

(** [bcrypt.hash] rejects a password that is not a string. *)
Definition createUser (uuid salt : string) (now : Date) (insertUser : row)
  : M (option row) :=
  match insertUser !! "password" with
  | Some (VText password) =>
      let hashedPassword := bcrypt_hash password 10 salt in
      await rs <- insert_checked usersT users_constraints
                    (users_defaults uuid now)
                    (<["password" := VText hashedPassword]> insertUser) in
      ret (head rs)
  | _ => throw "Illegal arguments"
  end.

(** *** Products *)

Definition createProduct (uuid : string) (now : Date) (product : row)
  : M (option row) :=
  await rs <- insert_checked productsT products_constraints
                (products_defaults uuid now)
                (<["isActive" := js_nullish (product !! "isActive") (VBool true)]>
                   product) in
  ret (head rs).

(** *** Bills *)

Definition getBill (id : string) : M (option row) :=
  await rs <- Drizzle.select billsT (col "id" (VText id)) in
  ret (head rs).

Definition getBillById (id : string) : M (option row) :=
  await rs <- Drizzle.select billsT (col "id" (VText id)) in
  ret (head rs).

Definition getBillByNumber (billNumber : string) : M (option row) :=
  await rs <- Drizzle.select billsT (col "billNumber" (VText billNumber)) in
  ret (head rs).

Definition getBillsByDateRange (startDate endDate : Date) : M (list row) :=
  await rs <- Drizzle.select billsT
                (fun r => col "createdAt" (VTime startDate) r
                          && col "createdAt" (VTime endDate) r) in
  ret (Drizzle.orderBy [Drizzle.desc "createdAt"] rs).

(** *** Estimates *)

Definition getAllEstimates : M (list row) :=
  await rs <- Drizzle.select estimatesT (fun _ => true) in
  ret (Drizzle.orderBy [Drizzle.desc "createdAt"] rs).

Definition getEstimate (id : string) : M (option row) :=
  await rs <- Drizzle.select estimatesT (col "id" (VText id)) in
  ret (head rs).

(** *** Categories *)

Definition getCategoryBySlug (slug : string) : M (option row) :=
  await rs <- Drizzle.select categoriesT (col "slug" (VText slug)) in
  ret (head rs).

Definition getMainCategories : M (list row) :=
  await rs <- Drizzle.select categoriesT (col_is_null "parentId") in
  ret (Drizzle.orderBy [Drizzle.asc "displayOrder"; Drizzle.asc "name"] rs).

Definition createCategory (uuid : string) (now : Date) (category : row)
  : M (option row) :=
  await rs <- insert_checked categoriesT categories_constraints
                (categories_defaults uuid now)
                (<["updatedAt" := VTime now]> category) in
  ret (head rs).

(** The loop of [reorderCategories] from index [i] on; [clock i] is what
    [new Date()] reads in round [i]. *)
Fixpoint reorder_from (clock : nat -> Date) (i : nat) (categoryIds : list string)
  : M unit :=
  match categoryIds with
  | [] => ret tt
  | id :: rest =>
      await updated <- Drizzle.update categoriesT
                         (<["displayOrder" := VInt (Z.of_nat i)]>
                          {[ "updatedAt" := VTime (clock i) ]})
                         (col "id" (VText id)) in
      reorder_from clock (S i) rest
  end.

(** [try { ...; return true } catch { return false }] *)
Definition reorderCategories (clock : nat -> Date) (categoryIds : list string)
  : M bool :=
  fun db =>
    match reorder_from clock 0 categoryIds db with
    | (Returned _, db') => (Returned true, db')
    | (Raised _, db') => (Returned false, db')
    end.

(** *** Home sections *)

(** [getHomeSectionItems] for a key as a row holds it. *)
Definition getHomeSectionItemsOf (sectionId : value)
  : M (list HomeSectionItemWithProduct) :=
  fun db =>
    let joined :=
      Drizzle.innerJoin homeSectionItemsT productsT
        (Drizzle.on_eq "productId" "id") db in
    let selected := List.filter (fun ip => col "sectionId" sectionId ip.1) joined in
    let ordered :=
      Drizzle.sort_by
        (fun a b => Drizzle.cmp_keys [Drizzle.asc "position"] a.1 b.1)
        selected in
    (Returned (map (fun ip => mkHomeSectionItemWithProduct ip.1 ip.2) ordered),
     db).

(** [for (const section of sections) { items = await ...; push }] *)
Fixpoint with_items (sections : list row) : M (list HomeSectionWithItems) :=
  match sections with
  | [] => ret []
  | s :: rest =>
      await its <- getHomeSectionItemsOf (default VNull (s !! "id")) in
      await others <- with_items rest in
      ret (mkHomeSectionWithItems s its :: others)
  end.

Definition getAllHomeSections : M (list HomeSectionWithItems) :=
  await sections <- Drizzle.select homeSectionsT (col "isActive" (VBool true)) in
  with_items
    (Drizzle.orderBy [Drizzle.asc "displayOrder"; Drizzle.asc "createdAt"]
       sections).

Definition getAllHomeSectionsForAdmin : M (list HomeSectionWithItems) :=
  await sections <- Drizzle.select homeSectionsT (fun _ => true) in
  with_items
    (Drizzle.orderBy [Drizzle.asc "displayOrder"; Drizzle.asc "createdAt"]
       sections).

Definition getHomeSection (id : string) : M (option HomeSectionWithItems) :=
  await rs <- Drizzle.select homeSectionsT (col "id" (VText id)) in
  match head rs with
  | None => ret None
  | Some s =>
      await its <- getHomeSectionItems id in
      ret (Some (mkHomeSectionWithItems s its))
  end.

Definition createHomeSection (uuid : string) (now : Date) (sectionData : row)
  : M (option row) :=
  await rs <- insert_checked homeSectionsT homeSections_constraints
                (homeSections_defaults uuid now)
                (<["updatedAt" := VTime now]>
                   (<["createdAt" := VTime now]> sectionData)) in
  ret (head rs).

Definition deleteHomeSection (id : string) : M bool :=
  await removed <- Drizzle.delete homeSectionItemsT (col "sectionId" (VText id)) in
  await rowCount <- Drizzle.delete homeSectionsT (col "id" (VText id)) in
  ret (0 <? rowCount)%nat.

Definition addHomeSectionItem (uuid : string) (now : Date) (itemData : row)
  : M (option row) :=
  await rs <- insert_checked homeSectionItemsT homeSectionItems_constraints
                (homeSectionItems_defaults uuid now)
                (<["createdAt" := VTime now]> itemData) in
  ret (head rs).

Definition deleteHomeSectionItem (itemId : string) : M bool :=
  await rowCount <- Drizzle.delete homeSectionItemsT (col "id" (VText itemId)) in
  ret (0 <? rowCount)%nat.

End MoreStorage.

(** ** The estimates list of the admin client

    [filteredEstimates] of the [EstimatesList] component. [toLowerCase] is a
    parameter. *)

Record EstimateCard := mkEstimateCard {
  card_id : string;
  card_quotationNo : string;
  card_customerName : string;
  card_customerPhone : string;
  card_customerEmail : option string;
  card_productName : string;
  card_category : string;
  card_purity : string;
  card_grossWeight : string;
  card_netWeight : string;
  card_productCode : string;
  card_metalValue : string;
  card_makingChargesPercentage : string;
  card_makingCharges : string;
  card_stoneDiamondChargesPercentage : string;
  card_stoneDiamondCharges : string;
  card_wastagePercentage : string;
  card_wastageCharges : string;
  card_hallmarkingCharges : string;
  card_subtotal : string;
  card_totalAmount : string;
  card_currency : string;
  card_validUntil : string;
  card_status : string;
  card_sentToWhatsApp : bool;
  card_createdAt : string;
}.

(** [s.includes(q)] *)
Fixpoint includes (s q : string) : bool :=
  String.prefix q s ||
  match s with
  | EmptyString => false
  | String _ s' => includes s' q
  end.

Section EstimatesList.

Variable toLowerCase : string -> string.

Definition card_matches (searchQuery : string) (estimate : EstimateCard) : bool :=
  includes (toLowerCase (card_customerName estimate)) (toLowerCase searchQuery)
  || includes (card_customerPhone estimate) searchQuery
  || includes (toLowerCase (card_quotationNo estimate)) (toLowerCase searchQuery)
  || includes (toLowerCase (card_productName estimate)) (toLowerCase searchQuery).

(** [estimates?.filter(...) || []]; the query result is undefined until it
    has loaded. *)
Definition filteredEstimates (estimates : option (list EstimateCard))
    (searchQuery : string) : list EstimateCard :=
  match estimates with
  | Some l => List.filter (card_matches searchQuery) l
  | None => []
  end.

End EstimatesList.

(** ** Vocabulary of the properties *)

(** A product that has not been soft-deleted. *)
Definition active (p : row) : Prop := p !! "isActive" = Some (VBool true).

(** What [deleteProduct id] does to one product row. *)
Definition soft_delete (id : string) (p : row) : row :=
  if col "id" (VText id) p then <["isActive" := VBool false]> p else p.

(** The primary key: no two rows of a table carry the same [id]. *)
Definition unique_ids (l : list row) : Prop :=
  NoDup ((fun r => r !! "id") <$> l).

(** Keys are non-empty texts (the store generates UUIDs). *)
Definition keyed (r : row) : Prop :=
  exists s, r !! "id" = Some (VText s) /\ s <> "".

(** The [password] column is [text NOT NULL]. *)
Definition has_password_hash (u : row) : Prop :=
  exists hash, u !! "password" = Some (VText hash).

Definition verifies (bcrypt_compare : string -> string -> bool)
    (password : string) (u : row) : Prop :=
  exists hash, u !! "password" = Some (VText hash) /\
               bcrypt_compare password hash = true.

(** The user table holds no row with the email. *)
Definition unknown_email (email : string) (db : Db) : Prop :=
  Forall (fun u => u !! "email" <> Some (VText email)) (users db).

(** [u] is the first row of the user table with the email (the only one,
    emails being unique). *)
Definition first_with_email (email : string) (db : Db) (u : row) : Prop :=
  exists before after,
    users db = (before ++ u :: after)%list /\
    u !! "email" = Some (VText email) /\
    Forall (fun v => v !! "email" <> Some (VText email)) before.

(** Categories: roots, children and the rows a tree shows. *)
Definition is_root (c : row) : bool := negb (truthy (c !! "parentId")).

Definition child_of (m c : row) : bool :=
  strict_eq (c !! "parentId") (m !! "id").

Definition placed (h : list CategoryWithChildren) : list row :=
  h ≫= fun e => category e :: children e.

Definition has_child (id : string) (db : Db) : Prop :=
  exists c, c ∈ categories db /\ c !! "parentId" = Some (VText id).

Definition referenced (slug : string) (db : Db) : Prop :=
  exists p, p ∈ products db /\ p !! "category" = Some (VText slug).

(** The reading of "every stored category is placed" that the tree is
    checked against. *)
Definition every_category_placed (db : Db) : Prop :=
  exists h, getCategoriesHierarchy db = (Returned h, db) /\
            forall c, c ∈ categories db -> c ∈ placed h.

(** Estimates: the calendar month of a date, the constant part of a
    quotation number and the number of estimates of the month. *)
Definition same_month (a b : Date) : Prop :=
  JsDate.getFullYear a = JsDate.getFullYear b /\
  JsDate.getMonth a = JsDate.getMonth b.

Definition quotation_prefix (now : Date) : string :=
  "PJ-QTN-" +:+ JsString.of_Z (JsDate.getFullYear now) +:+ "-"
  +:+ JsString.padStart 2 "0" (JsString.of_Z (JsDate.getMonth now + 1)) +:+ "-".

(** The stored estimates whose [createdAt] lies in the window that
    [createEstimate] sends for [now]. *)
Definition monthly_count (toISOString : Date -> Date) (now : Date) (db : Db)
  : nat :=
  List.length (List.filter (inMonthOf toISOString now) (estimates db)).

(** A reading lies in the window sent for [now]. *)
Definition in_window (toISOString : Date -> Date) (now d : Date) : Prop :=
  JsDate.le (toISOString (startOfMonth now)) d /\
  JsDate.le d (toISOString (endOfMonth now)).

(** The quotation number with sequence number [k]. *)
Definition numbered (now : Date) (k : nat) : option value :=
  Some (VText (quotation_prefix now +:+
               JsString.padStart 3 "0" (JsString.of_nat k))).

(** [toISOString] keeps the order of valid readings, both ways. *)
Definition keeps_order (toISOString : Date -> Date) : Prop :=
  forall a b, JsDate.valid a -> JsDate.valid b ->
    JsDate.le (toISOString a) (toISOString b) <-> JsDate.le a b.

(** Tables: reading back what was written, and a key no row carries. *)
Definition lawful (t : table) : Prop :=
  (forall db, put t (rows t db) db = db) /\
  (forall l db, rows t (put t l db) = l).

Definition all_tables : list table :=
  [usersT; productsT; billsT; estimatesT; categoriesT; homeSectionsT;
   homeSectionItemsT].

Definition absent_from (t : table) (id : string) (db : Db) : Prop :=
  Forall (fun r => r !! "id" <> Some (VText id)) (rows t db).

(** An update object with an entry for a column of the table. *)
Definition names_column (t : table) (o : row) : Prop :=
  exists k, k ∈ columns t /\ is_Some (o !! k).

(** The shape of a [uuid] as the store prints it: 8-4-4-4-12 hexadecimal
    digits. *)
Definition is_hex (c : ascii) : bool :=
  let n := nat_of_ascii c in
  ((48 <=? n) && (n <=? 57) || (97 <=? n) && (n <=? 102)
   || (65 <=? n) && (n <=? 70))%nat.

Fixpoint after_hex (n : nat) (s : string) : option string :=
  match n with
  | O => Some s
  | S n' =>
      match s with
      | String c rest => if is_hex c then after_hex n' rest else None
      | EmptyString => None
      end
  end.

Fixpoint uuid_groups (groups : list nat) (s : string) : bool :=
  match groups with
  | [] => false
  | [n] => match after_hex n s with Some EmptyString => true | _ => false end
  | n :: rest =>
      match after_hex n s with
      | Some (String "-" s') => uuid_groups rest s'
      | _ => false
      end
  end.

Definition canonical_uuid (s : string) : bool :=
  uuid_groups [8; 4; 4; 4; 12]%nat s.

(** What [createBill] subtracts: [Number(bill.discount || 0)] written out. *)
Definition discount_of {num} (Number : option value -> num) (num_zero : num)
    (bill : row) : num :=
  if truthy (bill !! "discount") then Number (bill !! "discount") else num_zero.

(** The total of the additive formula for an input bill. *)
Definition additive_total {num} (Number : option value -> num) (num_zero : num)
    (num_add num_sub : num -> num -> num) (bill : row) : num :=
  num_sub
    (num_add
       (num_add (Number (bill !! "subtotal")) (Number (bill !! "makingCharges")))
       (Number (bill !! "gst")))
    (discount_of Number num_zero bill).

(** C7 as the claim words it, for one input: the bill is persisted, with
    the total of the formula and the items as supplied. *)
Definition persisted_with_total {num} (Number : option value -> num)
    (num_zero : num) (num_add num_sub : num -> num -> num)
    (pg_numeric : num -> string) (numeric_overflow : num -> bool)
    (uuid : string) (now : Date) (bill : row) (db : Db) : Prop :=
  exists r db',
    createBill Number num_zero num_add num_sub pg_numeric numeric_overflow
      uuid now bill db = (Returned [r], db') /\
    r ∈ bills db' /\
    r !! "total" =
      Some (VText (pg_numeric
                     (additive_total Number num_zero num_add num_sub bill))) /\
    r !! "items" = bill !! "items".

(** What a component of a bill total is read as in a partial update: an
    absent field counts as 0. *)
Definition component {num} (Number : option value -> num) (num_zero : num)
    (billData : row) (k : string) : num :=
  match billData !! k with
  | None => num_zero
  | Some v => Number_or_0 Number num_zero (Some v)
  end.

(** ** A small shop

    Three categories in a chain (rings, engagement rings below it, solitaires
    below that), one product filed under rings and shown in a home section,
    and one user. *)

Definition rings : row :=
  list_to_map
    [("id", VText "c-rings"); ("name", VText "Rings"); ("slug", VText "rings");
     ("parentId", VNull); ("displayOrder", VInt 0); ("isActive", VBool true)].

Definition engagement_rings : row :=
  list_to_map
    [("id", VText "c-engagement"); ("name", VText "Engagement rings");
     ("slug", VText "engagement-rings"); ("parentId", VText "c-rings");
     ("displayOrder", VInt 1); ("isActive", VBool true)].

Definition solitaires : row :=
  list_to_map
    [("id", VText "c-solitaires"); ("name", VText "Solitaires");
     ("slug", VText "solitaires"); ("parentId", VText "c-engagement");
     ("displayOrder", VInt 2); ("isActive", VBool true)].

Definition gold_ring : row :=
  list_to_map
    [("id", VText "p-1"); ("name", VText "Gold ring");
     ("category", VText "rings"); ("priceInr", VText "52000.00");
     ("stock", VInt 3); ("isActive", VBool true)].

Definition featured : row :=
  list_to_map
    [("id", VText "s-1"); ("title", VText "Featured");
     ("isActive", VBool true); ("displayOrder", VInt 0)].

Definition showcase : row :=
  list_to_map
    [("id", VText "i-1"); ("sectionId", VText "s-1");
     ("productId", VText "p-1"); ("position", VInt 0)].

Definition alice : row :=
  list_to_map
    [("id", VText "u-1"); ("email", VText "alice@example.com");
     ("password", VText "hash:secret"); ("name", VText "Alice");
     ("role", VText "admin")].

Definition shop : Db :=
  mkDb [alice] [gold_ring] [] [] [rings; engagement_rings; solitaires]
       [featured] [showcase].

(** Stand-ins for the library functions at the concrete instances: a
    comparison that recognises the hash format of [alice], and whole numbers
    for JavaScript numbers. *)
Definition toy_compare (password hash : string) : bool :=
  String.eqb ("hash:" +:+ password) hash.

Definition toy_hash (password : string) (rounds : nat) (salt : string) : string :=
  "hash:" +:+ password.

Definition whole_Number (v : option value) : Z :=
  match v with
  | Some (VInt n) => n
  | Some (VText s) =>
      match JsString.to_nat s with Some n => Z.of_nat n | None => 0 end
  | _ => 0
  end.

(** [new Date(v)] on the few values the instances use: one date text,
    [null] (the epoch), and an Invalid Date for everything else, [undefined]
    included. *)
Definition toy_parse (v : option value) : option Date :=
  match v with
  | Some (VText "2025-04-10") => Some (JsDate.mkDate 2025 3 10 0)
  | Some VNull => Some (JsDate.mkDate 1970 0 1 0)
  | _ => None
  end.

(** Time zones without daylight saving: the reading [ms] milliseconds later
    (earlier, if negative), for less than a day, and [toISOString] for an
    application whose zone is [offset] milliseconds ahead of UTC. *)
Definition prevDay (d : Date) : Date :=
  if JsDate.date d =? 1 then
    if JsDate.month d =? 0
    then JsDate.mkDate (JsDate.year d - 1) 11 31 (JsDate.time d)
    else JsDate.mkDate (JsDate.year d) (JsDate.month d - 1)
           (JsDate.daysInMonth (JsDate.year d) (JsDate.month d - 1))
           (JsDate.time d)
  else JsDate.mkDate (JsDate.year d) (JsDate.month d) (JsDate.date d - 1)
         (JsDate.time d).

Definition nextDay (d : Date) : Date :=
  if JsDate.date d =? JsDate.daysInMonth (JsDate.year d) (JsDate.month d) then
    if JsDate.month d =? 11
    then JsDate.mkDate (JsDate.year d + 1) 0 1 (JsDate.time d)
    else JsDate.mkDate (JsDate.year d) (JsDate.month d + 1) 1 (JsDate.time d)
  else JsDate.mkDate (JsDate.year d) (JsDate.month d) (JsDate.date d + 1)
         (JsDate.time d).

Definition plus_ms (ms : Z) (d : Date) : Date :=
  let t := JsDate.time d + ms in
  if t <? 0 then
    let p := prevDay d in
    JsDate.mkDate (JsDate.year p) (JsDate.month p) (JsDate.date p) (t + 86400000)
  else if 86400000 <=? t then
    let n := nextDay d in
    JsDate.mkDate (JsDate.year n) (JsDate.month n) (JsDate.date n) (t - 86400000)
  else JsDate.mkDate (JsDate.year d) (JsDate.month d) (JsDate.date d) t.

Definition zone_toISOString (offset : Z) (d : Date) : Date := plus_ms (- offset) d.

(** Asia/Kolkata is five and a half hours ahead of UTC. *)
Definition kolkata : Z := 19800000.

(** Money in hundredths for the concrete instances: ["1084.50"] is 108450.
    [cents_Number] reads an amount written with two decimals (or none),
    [cents_text] prints what a [numeric(12,2)] column shows, and an amount
    of 10^10 or more does not fit. *)
Fixpoint split_dot (s : string) : string * option string :=
  match s with
  | EmptyString => (EmptyString, None)
  | String c rest =>
      if Ascii.eqb c "." then (EmptyString, Some rest)
      else let (a, b) := split_dot rest in (String c a, b)
  end.

Definition cents_of_text (s : string) : option Z :=
  match split_dot s with
  | (whole, None) =>
      match JsString.to_nat whole with
      | Some n => Some (100 * Z.of_nat n)
      | None => None
      end
  | (whole, Some frac) =>
      match JsString.to_nat whole, JsString.to_nat frac with
      | Some n, Some k =>
          if (String.length frac =? 2)%nat
          then Some (100 * Z.of_nat n + Z.of_nat k) else None
      | _, _ => None
      end
  end.

Definition cents_Number (v : option value) : Z :=
  match v with
  | Some (VText s) => default 0 (cents_of_text s)
  | Some (VInt n) => 100 * n
  | _ => 0
  end.

Definition cents_text (c : Z) : string :=
  (if c <? 0 then "-" else "")
  +:+ JsString.of_Z (Z.abs c / 100) +:+ "."
  +:+ JsString.padStart 2 "0" (JsString.of_Z (Z.abs c mod 100)).

Definition cents_overflow (c : Z) : bool := 1000000000000 <=? Z.abs c.

(** The shop with one bill on file. *)
Definition old_bill : row :=
  list_to_map
    [("id", VText "b-1"); ("billNumber", VText "B-0001");
     ("subtotal", VText "1000.00"); ("makingCharges", VText "150.00");
     ("gst", VText "34.50"); ("discount", VText "0"); ("total", VText "1184.50")].

Definition billing_shop : Db := put billsT [old_bill] shop.

Definition march_10 : Date := JsDate.mkDate 2025 2 10 36000000.
Definition march_10_later : Date := JsDate.mkDate 2025 2 10 36000250.
Definition march_24 : Date := JsDate.mkDate 2025 2 24 61200000.

(** What a clock in UTC reads at those instants when they are readings of a
    clock in Asia/Kolkata, and the last evening of the month. *)
Definition march_10_utc : Date := JsDate.mkDate 2025 2 10 16200250.
Definition march_24_utc : Date := JsDate.mkDate 2025 2 24 41400000.
Definition march_31_evening : Date := JsDate.mkDate 2025 2 31 72000000.
Definition march_31_night : Date := JsDate.mkDate 2025 2 31 75600000.

(** A bill as the insert schema types it (no [billNumber]), and the same
    with a number. *)
Definition walk_in_bill : row :=
  list_to_map
    [("customerName", VText "Meera Nair");
     ("customerEmail", VText "meera@example.com");
     ("customerPhone", VText "9845012345");
     ("customerAddress", VText "12 MG Road");
     ("subtotal", VText "1000.00"); ("makingCharges", VText "150.00");
     ("gst", VText "34.50"); ("discount", VText "100.00");
     ("total", VText "1.00"); ("paidAmount", VText "1084.50");
     ("items", VJson (JArray [JObject [("productName", JString "Gold ring");
                                       ("quantity", JNumber "1")]]))].

Definition numbered_bill : row := <["billNumber" := VText "B-0002"]> walk_in_bill.

(** A key of the shape the [bills] table uses. *)
Definition bill_key : string := "3f2b8c1e-7a4d-4e5f-9b6a-0c1d2e3f4a5b".

(** An estimate as the form sends it, and the shop with that estimate on
    file, written on 10 March. *)
Definition ring_quote : row :=
  list_to_map
    [("customerName", VText "Meera Nair"); ("customerPhone", VText "9845012345");
     ("productName", VText "Gold ring"); ("category", VText "rings");
     ("purity", VText "22K"); ("grossWeight", VText "4.10");
     ("netWeight", VText "3.90"); ("productCode", VText "PJ-RN-001");
     ("metalValue", VText "24000.00");
     ("makingChargesPercentage", VText "15.00");
     ("makingCharges", VText "3600.00"); ("wastageCharges", VText "480.00");
     ("subtotal", VText "28530.00"); ("totalAmount", VText "29385.90");
     ("validUntil", VText "2025-04-10")].

Definition first_quote : row :=
  Drizzle.new_row estimatesT (estimates_defaults "e-1" march_10_utc)
    (<["validUntil" := VTime (JsDate.mkDate 2025 3 10 0)]>
       (<["quotationNo" := VText "PJ-QTN-2025-03-001"]> ring_quote)).

Definition quoting_shop : Db := put estimatesT [first_quote] shop.

(** ** Vocabulary of the further properties *)

(** A three-way comparison that orders the elements of [P]. *)
Record lawful_cmp {A} (P : A -> Prop) (cmp : A -> A -> comparison) : Prop := {
  cmp_opp : forall a b, cmp b a = CompOpp (cmp a b);
  cmp_eq_l : forall a b c, P a -> P b -> P c ->
    cmp a b = Eq -> cmp a c = cmp b c;
  cmp_lt_trans : forall a b c, P a -> P b -> P c ->
    cmp a b = Lt -> cmp b c = Lt -> cmp a c = Lt;
}.

Definition cmp_le {A} (cmp : A -> A -> comparison) (a b : A) : Prop :=
  cmp a b <> Gt.

Inductive kind := KInt | KText | KTime | KBool.

Definition of_kind (k : kind) (v : option value) : Prop :=
  match v with
  | None | Some VNull => True
  | Some (VInt _) => k = KInt
  | Some (VText _) => k = KText
  | Some (VTime _) => k = KTime
  | Some (VBool _) => k = KBool
  | Some (VJson _) => False
  end.

Definition key_column (k : Drizzle.order_key) : string :=
  match k with Drizzle.asc c | Drizzle.desc c => c end.

(** The columns in [cs] hold values of the kinds given, or NULL. *)
Definition well_kinded (cs : list (string * kind)) (r : row) : Prop :=
  Forall (fun ck => of_kind ck.2 (r !! ck.1)) cs.



(** The text a row holds in a column, if it holds one. *)
Definition text_of (c : string) (r : row) : option string :=
  match r !! c with
  | Some (VText s) => Some s
  | _ => None
  end.

(** No two rows hold the same text in column [c]. *)
Definition unique_text (c : string) (l : list row) : Prop :=
  NoDup (omap (text_of c) l).

(** What [clearUserOtp] leaves in a user row. *)
Definition otp_cleared (u : row) : row :=
  <["otpCode" := VNull]> (<["otpExpiry" := VNull]> (<["otpVerified" := VBool false]> u)).

(** The kinds of the columns the listings are ordered by. *)
Definition category_order_kinds : list (string * kind) :=
  [("displayOrder", KInt); ("name", KText)].

Definition created_kinds : list (string * kind) := [("createdAt", KTime)].

Definition section_order_kinds : list (string * kind) :=
  [("displayOrder", KInt); ("createdAt", KTime)].

(** A [parentId] is NULL or a non-empty text. *)
Definition parent_ok (c : row) : Prop :=
  match c !! "parentId" with
  | None | Some VNull => True
  | Some (VText s) => s <> ""
  | _ => False
  end.

(** Where a key stands in a list of keys. *)
Fixpoint index_of (s : string) (ids : list string) : option nat :=
  match ids with
  | [] => None
  | id :: rest =>
      if String.eqb id s then Some O
      else match index_of s rest with Some j => Some (S j) | None => None end
  end.

(** What [reorderCategories] makes of a category: listed at position [j], it
    gets [displayOrder = j] and the time of that round. *)
Definition reordered (clock : nat -> Date) (start : nat) (ids : list string)
    (c : row) : row :=
  match c !! "id" with
  | Some (VText s) =>
      match index_of s ids with
      | Some j =>
          <["displayOrder" := VInt (Z.of_nat (start + j))]>
            (<["updatedAt" := VTime (clock (start + j)%nat)]> c)
      | None => c
      end
  | _ => c
  end.

Definition item_order_kinds : list (string * kind) := [("position", KInt)].

(** The items [getHomeSectionItems] shows for a section key. *)
Definition section_items (sectionId : value) (db : Db)
  : list HomeSectionItemWithProduct :=
  match getHomeSectionItemsOf sectionId db with
  | (Returned l, _) => l
  | (Raised _, _) => []
  end.

(** The quotation numbers of the estimates in the window of [now], in table
    order. *)
Definition month_numbers (toISOString : Date -> Date) (now : Date) (db : Db)
  : list (option value) :=
  (fun e => e !! "quotationNo")
    <$> List.filter (inMonthOf toISOString now) (estimates db).

(** The estimates in the window of [now] carry the numbers 1 to n of that
    month, each once, n being their count. *)
Definition month_numbered (toISOString : Date -> Date) (now : Date) (db : Db)
  : Prop :=
  Permutation (month_numbers toISOString now db)
              (numbered now <$> seq 1 (monthly_count toISOString now db)).

(** [a] may stand before [b] in a listing that shows the newest first. *)
Definition newest_first (a b : row) : Prop :=
  forall da db, a !! "createdAt" = Some (VTime da) ->
                b !! "createdAt" = Some (VTime db) -> JsDate.le db da.

(** Standing earlier in a list of keys. *)
Definition stands_before (ids : list string) (s t : string) : Prop :=
  forall i j, ids !! i = Some s -> ids !! j = Some t -> (i <= j)%nat.

Definition id_text (c : row) : string := default "" (text_of "id" c).

(** ** More of the shop

    A sign-up, a second product with creation times on both, a new category,
    an item for a product that does not exist, and an estimate as the list
    component receives it. *)

Definition bob_signup : row :=
  list_to_map
    [("email", VText "bob@example.com"); ("password", VText "pw");
     ("name", VText "Bob")].

Definition dated_gold_ring : row := <["createdAt" := VTime march_10]> gold_ring.

Definition silver_chain : row :=
  list_to_map
    [("id", VText "p-2"); ("name", VText "Silver chain");
     ("category", VText "chains"); ("priceInr", VText "4100.00");
     ("stock", VInt 7); ("isActive", VBool true);
     ("createdAt", VTime march_24)].

Definition catalogue : Db := put productsT [dated_gold_ring; silver_chain] shop.

Definition pearl_studs : row :=
  list_to_map
    [("name", VText "Pearl studs"); ("description", VText "Freshwater pearls");
     ("category", VText "earrings"); ("priceInr", VText "9000.00");
     ("priceBhd", VText "41.000"); ("grossWeight", VText "3.20");
     ("netWeight", VText "2.90"); ("isActive", VBool false)].

Definition bracelets : row :=
  list_to_map [("name", VText "Bracelets"); ("slug", VText "bracelets")].

Definition ghost_item : row :=
  list_to_map [("sectionId", VText "s-1"); ("productId", VText "p-404")].

Definition lower_ascii (c : ascii) : ascii :=
  let n := nat_of_ascii c in
  if ((65 <=? n) && (n <=? 90))%nat then ascii_of_nat (n + 32) else c.

Fixpoint toy_lower (s : string) : string :=
  match s with
  | EmptyString => EmptyString
  | String c rest => String (lower_ascii c) (toy_lower rest)
  end.

Definition ring_estimate : EstimateCard :=
  mkEstimateCard "e-1" "PJ-QTN-2025-03-001" "Meera Nair" "9845012345" None
    "Gold ring" "rings" "22K" "4.10" "3.90" "PJ-RN-001" "24000.00" "15.00"
    "3600.00" "0" "0" "2.00" "480.00" "450.00" "28530.00" "29385.90" "INR"
    "2025-04-10" "PENDING" false "2025-03-10".

Definition chain_estimate : EstimateCard :=
  mkEstimateCard "e-2" "PJ-QTN-2025-03-002" "Farid Khan" "9900011122" None
    "Silver chain" "chains" "925" "12.00" "12.00" "PJ-CH-007" "4100.00"
    "10.00" "410.00" "0" "0" "0" "0" "0" "4510.00" "4645.30" "INR"
    "2025-04-24" "PENDING" true "2025-03-24".

(** The clock of a reordering: one millisecond per round. *)
Definition rounds (i : nat) : Date :=
  JsDate.mkDate 2025 2 24 (61200000 + Z.of_nat i).

(** * Facts *)

(** ** Strings *)

Module JsStringFacts.
Import JsString.

Lemma to_nat_of_nat n : to_nat (of_nat n) = Some n.
Proof.
  unfold to_nat, of_nat. rewrite NilEmpty.usu. f_equal.
  apply DecimalNat.Unsigned.of_to.
Qed.

Lemma to_nat_zero s : to_nat (String "0" s) = to_nat s.
Proof.
  unfold to_nat. simpl. destruct (NilEmpty.uint_of_string s); reflexivity.
Qed.

Lemma to_nat_repeat_zero k s : to_nat (repeat_char "0" k +:+ s) = to_nat s.
Proof.
  induction k as [|k IH]; [done|].
  etrans; [|exact IH]. exact (to_nat_zero (repeat_char "0" k +:+ s)).
Qed.

(** Padding with zeros does not change the number that is read back. *)
Lemma to_nat_padStart k n : to_nat (padStart k "0" (of_nat n)) = Some n.
Proof. unfold padStart. by rewrite to_nat_repeat_zero, to_nat_of_nat. Qed.

Lemma padStart_of_nat_inj k n m :
  padStart k "0" (of_nat n) = padStart k "0" (of_nat m) -> n = m.
Proof.
  intros H. apply (f_equal to_nat) in H. rewrite !to_nat_padStart in H.
  congruence.
Qed.

Lemma append_assoc (a b c : string) : (a +:+ b) +:+ c = a +:+ (b +:+ c).
Proof.
  induction a as [|x a IH]; [done|].
  change (String x ((a +:+ b) +:+ c) = String x (a +:+ (b +:+ c))).
  by rewrite IH.
Qed.

Lemma append_inj_r (p s t : string) : p +:+ s = p +:+ t -> s = t.
Proof. induction p as [|c p IH]; simpl; [done|]. intros [= H]. auto. Qed.

End JsStringFacts.

(** ** Dates *)

Module JsDateFacts.
Import JsDate.

Lemma leb_le a b : leb a b = true <-> le a b.
Proof.
  unfold leb, compare, le.
  destruct (Z.compare_spec (year a) (year b));
    destruct (Z.compare_spec (month a) (month b));
    destruct (Z.compare_spec (date a) (date b));
    destruct (Z.compare_spec (time a) (time b)); split; (done || lia).
Qed.

Lemma le_trans a b c : le a b -> le b c -> le a c.
Proof. unfold le. lia. Qed.

(** The first instant of a month ... *)
Lemma make_first y m :
  0 <= m <= 11 -> make y m 1 0 0 0 0 = mkDate y m 1 0.
Proof.
  intros Hm. unfold make. simpl.
  rewrite Z.div_small, Z.mod_small by lia. f_equal. lia.
Qed.

(** ... and its last millisecond: day 0 of the month after. *)
Lemma make_last y m :
  0 <= m <= 11 ->
  make y (m + 1) 0 23 59 59 999 = mkDate y m (daysInMonth y m) 86399999.
Proof.
  intros Hm. unfold make.
  change (0 =? 0) with true. change (msOfDay 23 59 59 999) with 86399999.
  cbv iota.
  destruct (Z.eq_dec m 11) as [->|Hne].
  { change (11 + 1) with 12. change (12 / 12) with 1.
    change (12 mod 12) with 0. change (0 =? 0) with true. cbv iota.
    by replace (y + 1 - 1) with y by lia. }
  rewrite Z.div_small, Z.mod_small by lia.
  destruct (m + 1 =? 0) eqn:E; [lia|].
  replace (y + 0) with y by lia. replace (m + 1 - 1) with m by lia. done.
Qed.

End JsDateFacts.

(** ** Predicates, filters and sorting *)

Lemma sql_eq_text o s : sql_eq o (VText s) = true <-> o = Some (VText s).
Proof.
  destruct o as [[]|]; simpl; split; try congruence.
  - intros H. apply String.eqb_eq in H. by subst.
  - intros [= ->]. apply String.eqb_refl.
Qed.

Lemma sql_eq_bool o b : sql_eq o (VBool b) = true <-> o = Some (VBool b).
Proof.
  destruct o as [[]|]; simpl; split; try congruence.
  - intros H. apply Bool.eqb_prop in H. by subst.
  - intros [= ->]. apply Bool.eqb_reflx.
Qed.

Lemma strict_eq_text o s :
  strict_eq o (Some (VText s)) = true <-> o = Some (VText s).
Proof.
  destruct o as [[]|]; simpl; split; try congruence.
  - intros H. apply String.eqb_eq in H. by subst.
  - intros [= ->]. apply String.eqb_refl.
Qed.

Lemma js_or_text s : js_or (Some (VText s)) (VText "") = VText s.
Proof.
  unfold js_or. simpl. destruct (String.eqb s "") eqn:E; simpl; [|done].
  apply String.eqb_eq in E. by subst.
Qed.

Lemma elem_of_filter {A} (p : A -> bool) l x :
  x ∈ List.filter p l <-> x ∈ l /\ p x = true.
Proof. rewrite !list_elem_of_In. apply filter_In. Qed.

Lemma filter_nil_iff {A} (p : A -> bool) l :
  List.filter p l = [] <-> forall x, x ∈ l -> p x = false.
Proof.
  induction l as [|y l IH]; simpl.
  - split; [|done]. intros _ x Hx. by apply not_elem_of_nil in Hx.
  - destruct (p y) eqn:E.
    + split; [done|]. intros H. specialize (H y ltac:(left)). congruence.
    + rewrite IH. split.
      * intros H x Hx. apply elem_of_cons in Hx as [->|Hx]; auto.
      * intros H x Hx. apply H. by right.
Qed.

Lemma filter_length_pos {A} (p : A -> bool) l :
  (0 <? List.length (List.filter p l))%nat = true <->
  exists x, x ∈ l /\ p x = true.
Proof.
  rewrite Nat.ltb_lt. split.
  - destruct (List.filter p l) as [|x l'] eqn:E; simpl; [lia|]. intros _.
    exists x. apply elem_of_filter. rewrite E. left.
  - intros (x & Hx & Hp).
    assert (x ∈ List.filter p l) as Hin by (by apply elem_of_filter).
    destruct (List.filter p l); [by apply not_elem_of_nil in Hin|simpl; lia].
Qed.

Lemma NoDup_List_filter {A} (p : A -> bool) l :
  NoDup l -> NoDup (List.filter p l).
Proof.
  induction 1 as [|x l Hx Hl IH]; simpl; [constructor|].
  destruct (p x); [|done]. constructor; [|done].
  intros Hin. apply elem_of_filter in Hin as [? _]. done.
Qed.

Lemma insert_sorted_perm {A} (cmp : A -> A -> comparison) x l :
  Permutation (Drizzle.insert_sorted cmp x l) (x :: l).
Proof.
  induction l as [|y l IH]; simpl; [done|].
  destruct (cmp x y); try done.
  all: rewrite IH; apply perm_swap.
Qed.

(** Sorting only rearranges. *)
Lemma sort_by_perm {A} (cmp : A -> A -> comparison) l :
  Permutation (Drizzle.sort_by cmp l) l.
Proof.
  induction l as [|x l IH]; simpl; [done|].
  rewrite insert_sorted_perm. by constructor.
Qed.

Lemma elem_of_orderBy ks l x : x ∈ Drizzle.orderBy ks l <-> x ∈ l.
Proof. unfold Drizzle.orderBy. by rewrite sort_by_perm. Qed.

Lemma orderBy_length ks l : List.length (Drizzle.orderBy ks l) = List.length l.
Proof. unfold Drizzle.orderBy. apply Permutation_length, sort_by_perm. Qed.

(** ** Rows and statements *)

Section RowFacts.
Context (t : table).
Implicit Types o r d : row.

Lemma restrict_lookup cols o k :
  Drizzle.restrict cols o !! k = if decide (k ∈ cols) then o !! k else None.
Proof.
  unfold Drizzle.restrict.
  destruct (decide (k ∈ cols)) as [Hin|Hin].
  - destruct (o !! k) eqn:E.
    + apply map_lookup_filter_Some. done.
    + apply map_lookup_filter_None. left. done.
  - apply map_lookup_filter_None. right. intros v _. done.
Qed.

Lemma restrict_singleton cols k (v : value) :
  k ∈ cols -> Drizzle.restrict cols {[ k := v ]} = {[ k := v ]}.
Proof.
  intros Hk. apply map_eq. intros j. rewrite restrict_lookup.
  destruct (decide (j ∈ cols)); [done|].
  rewrite lookup_singleton_ne; [done|]. intros ->. done.
Qed.

Lemma nulls_lookup cols k :
  k ∈ cols -> Drizzle.nulls cols !! k = Some VNull.
Proof.
  intros Hk. unfold Drizzle.nulls.
  destruct (list_to_map (M := row) _ !! k) as [v|] eqn:E.
  - apply elem_of_list_to_map_2, list_elem_of_fmap in E as (c & [= -> ->] & _).
    done.
  - apply not_elem_of_list_to_map_2 in E. destruct E.
    rewrite <- list_fmap_compose. simpl. by rewrite list_fmap_id.
Qed.

(** A column the [set] object names takes the new value. *)
Lemma apply_set_lookup_Some o r k v :
  k ∈ columns t -> o !! k = Some v -> Drizzle.apply_set t o r !! k = Some v.
Proof.
  intros Hk Ho. unfold Drizzle.apply_set.
  rewrite lookup_union, restrict_lookup, decide_True, Ho by done.
  by rewrite union_Some_l.
Qed.

(** An inserted row holds the value given for a column, else the column
    default, else NULL. *)
Lemma new_row_lookup_Some d o k v :
  k ∈ columns t -> o !! k = Some v -> Drizzle.new_row t d o !! k = Some v.
Proof.
  intros Hk Ho. unfold Drizzle.new_row.
  rewrite !lookup_union, restrict_lookup, decide_True, Ho by done.
  by rewrite !union_Some_l.
Qed.

Lemma new_row_lookup_default d o k v :
  o !! k = None -> d !! k = Some v -> Drizzle.new_row t d o !! k = Some v.
Proof.
  intros Ho Hd. unfold Drizzle.new_row.
  rewrite !lookup_union, restrict_lookup, Ho, Hd.
  destruct (decide _); by destruct (Drizzle.nulls _ !! k).
Qed.

Lemma new_row_lookup_null d o k :
  k ∈ columns t -> o !! k = None -> d !! k = None ->
  Drizzle.new_row t d o !! k = Some VNull.
Proof.
  intros Hk Ho Hd. unfold Drizzle.new_row.
  rewrite !lookup_union, restrict_lookup, Ho, Hd, nulls_lookup by done.
  by destruct (decide _).
Qed.

(** An update whose condition matches no row returns nothing and leaves
    the database as it was. *)
Lemma update_no_match o p db :
  lawful t -> (forall r, r ∈ rows t db -> p r = false) ->
  Drizzle.update t o p db = (Returned [], db).
Proof.
  intros [Hput _] Hp. unfold Drizzle.update.
  rewrite (proj2 (filter_nil_iff p (rows t db)) Hp). simpl. f_equal.
  replace (map _ (rows t db)) with (rows t db); [apply Hput|].
  rewrite <- (map_id (rows t db)) at 1.
  apply map_ext_in. intros r Hr. rewrite Hp; [done|]. by apply list_elem_of_In.
Qed.

Lemma update_absent o id db :
  lawful t -> absent_from t id db ->
  Drizzle.update t o (col "id" (VText id)) db = (Returned [], db).
Proof.
  intros Ht Habs. apply update_no_match; [done|]. intros r Hr.
  unfold absent_from in Habs. rewrite Forall_forall in Habs.
  destruct (col "id" (VText id) r) eqn:E; [|done].
  apply sql_eq_text in E. by destruct (Habs r Hr).
Qed.

End RowFacts.

Lemma tables_lawful : Forall lawful all_tables.
Proof. repeat constructor; by intros []. Qed.

(** ** Primary keys *)

Lemma unique_ids_inj l (a b : row) :
  unique_ids l -> a ∈ l -> b ∈ l -> a !! "id" = b !! "id" -> a = b.
Proof.
  unfold unique_ids. induction l as [|x l IH]; simpl.
  - intros _ Ha. by apply not_elem_of_nil in Ha.
  - intros Hnd Ha Hb Heq. apply NoDup_cons in Hnd as [Hx Hnd].
    apply elem_of_cons in Ha as [->|Ha]; apply elem_of_cons in Hb as [->|Hb].
    + done.
    + destruct Hx. rewrite Heq. apply list_elem_of_fmap. eauto.
    + destruct Hx. rewrite <- Heq. apply list_elem_of_fmap. eauto.
    + by apply IH.
Qed.

(** Selecting by key finds the one row that carries it. *)
Lemma select_by_id l (c : row) id :
  unique_ids l -> c ∈ l -> c !! "id" = Some (VText id) ->
  List.filter (col "id" (VText id)) l = [c].
Proof.
  intros Hu Hc Hid. induction l as [|x l IH]; simpl.
  - by apply not_elem_of_nil in Hc.
  - pose proof Hu as Hu'. apply NoDup_cons in Hu' as [Hx Hnd].
    destruct (col "id" (VText id) x) eqn:E.
    + apply sql_eq_text in E.
      assert (x = c) as ->.
      { apply (unique_ids_inj (x :: l)); [done|left|done|congruence]. }
      f_equal. apply filter_nil_iff. intros y Hy.
      destruct (col "id" (VText id) y) eqn:Ey; [|done].
      apply sql_eq_text in Ey. destruct Hx.
      apply list_elem_of_fmap. exists y. split; [congruence|done].
    + apply IH; [done|]. apply elem_of_cons in Hc as [->|Hc]; [|done].
      unfold col in E. apply sql_eq_text in Hid. congruence.
Qed.

(** ** Concrete tables *)

Ltac not_in_concrete_list :=
  let H := fresh in
  intros H;
  repeat (apply elem_of_cons in H as [H|H]; [discriminate H|]);
  by apply not_elem_of_nil in H.

(** Distinctness of a written-out list of keys. *)
Ltac distinct_keys :=
  unfold unique_ids; vm_compute;
  repeat (apply NoDup_cons_2; [not_in_concrete_list|]); apply NoDup_nil_2.

Ltac keyed_rows :=
  repeat (apply Forall_cons_2;
          [eexists; split; [vm_compute; reflexivity|discriminate]|]);
  apply Forall_nil_2.

(** Every row of a written-out table carries another key. *)
Ltac other_keys :=
  unfold absent_from;
  repeat (apply Forall_cons_2; [vm_compute; discriminate|]);
  apply Forall_nil_2.

(** * Checked inserts *)

Lemma existsb_false_iff {A} (p : A -> bool) l :
  existsb p l = false <-> forall x, x ∈ l -> p x = false.
Proof.
  induction l as [|y l IH]; simpl.
  - split; [|done]. intros _ x Hx. by apply not_elem_of_nil in Hx.
  - rewrite orb_false_iff, IH. split.
    + intros [Hy Hl] x Hx. apply elem_of_cons in Hx as [->|Hx]; auto.
    + intros H. split; [apply H; left|]. intros x Hx. apply H. by right.
Qed.

(** What a successful checked insert tells: the row built from the input was
    appended, its required columns are filled, and no stored row shares one
    of its unique columns. *)
Lemma insert_checked_Returned t c dflt o db rs db' :
  insert_checked t c dflt o db = (Returned rs, db') ->
  let r := Drizzle.new_row t dflt o in
  rs = [r] /\ db' = put t (rows t db ++ [r])%list db /\
  (forall k, k ∈ not_null c -> is_null (r !! k) = false) /\
  (forall k v u, k ∈ unique c -> r !! k = Some v -> u ∈ rows t db ->
                 sql_eq (u !! k) v = false).
Proof.
  intros H r. unfold insert_checked in H. fold r in H.
  destruct (lacks_required c r) eqn:E1; [done|].
  destruct (duplicates c r (rows t db)) eqn:E2; [done|].
  injection H as <- <-. split; [done|]. split; [done|]. split.
  - intros k Hk. unfold lacks_required in E1.
    by apply (proj1 (existsb_false_iff _ _) E1).
  - intros k v u Hk Hv Hu. unfold duplicates in E2.
    pose proof (proj1 (existsb_false_iff _ _) E2 k Hk) as E3. simpl in E3.
    pose proof (proj1 (existsb_false_iff _ _) E3 u Hu) as E4.
    unfold collides in E4. by rewrite Hv in E4.
Qed.

(** A failed checked insert changes nothing. *)
Lemma insert_checked_Raised t c dflt o db msg db' :
  insert_checked t c dflt o db = (Raised msg, db') -> db' = db.
Proof.
  unfold insert_checked.
  destruct (lacks_required _ _); [by intros [= _ <-]|].
  destruct (duplicates _ _ _); [by intros [= _ <-]|]. done.
Qed.

(** A text already stored in a unique column makes the insert fail. *)
Lemma insert_checked_duplicate t c dflt o db k s u :
  k ∈ unique c -> Drizzle.new_row t dflt o !! k = Some (VText s) ->
  u ∈ rows t db -> u !! k = Some (VText s) ->
  exists msg, insert_checked t c dflt o db = (Raised msg, db).
Proof.
  intros Hk Hr Hu Hs. unfold insert_checked.
  destruct (lacks_required _ _); [by eexists|].
  assert (duplicates c (Drizzle.new_row t dflt o) (rows t db) = true) as ->;
    [|by eexists].
  unfold duplicates. apply existsb_exists. exists k.
  split; [by apply list_elem_of_In|].
  apply existsb_exists. exists u. split; [by apply list_elem_of_In|].
  unfold collides. rewrite Hr. by apply sql_eq_text.
Qed.

(** A required column left empty makes the insert fail. *)
Lemma insert_checked_lacking t c dflt o db k :
  k ∈ not_null c -> is_null (Drizzle.new_row t dflt o !! k) = true ->
  insert_checked t c dflt o db
    = (Raised "null value violates not-null constraint", db).
Proof.
  intros Hk Hn. unfold insert_checked.
  assert (lacks_required c (Drizzle.new_row t dflt o) = true) as ->; [|done].
  unfold lacks_required. apply existsb_exists. exists k.
  split; [by apply list_elem_of_In|done].
Qed.

(** * The category tree *)

Lemma child_not_root (c m : row) :
  keyed m -> child_of m c = true -> is_root c = false.
Proof.
  intros (s & Hs & Hne) H. unfold child_of in H. rewrite Hs in H.
  apply strict_eq_text in H. unfold is_root. rewrite H. simpl.
  destruct (String.eqb s "") eqn:E; [|done]. by apply String.eqb_eq in E.
Qed.

Lemma child_of_iff (l : list row) m c :
  Forall keyed l -> m ∈ l ->
  child_of m c = true <-> is_root c = false /\ c !! "parentId" = m !! "id".
Proof.
  intros Hk Hm. rewrite Forall_forall in Hk.
  destruct (Hk m Hm) as (s & Hs & Hne). split.
  - intros H. split; [by eapply child_not_root; eauto|].
    unfold child_of in H. rewrite Hs in *. by apply strict_eq_text.
  - intros [_ H]. unfold child_of. rewrite Hs in *. by apply strict_eq_text.
Qed.

(** C1, as the code has it. For a table of categories with unique, non-empty
    keys, [getCategoriesHierarchy] shows no category twice; its entries are
    exactly the categories without a parent; the children of an entry are
    exactly the categories whose [parentId] is the key of that entry; so a
    category is shown iff it has no parent or its parent is such a root, and
    a category below a non-root or below a missing parent is not shown. *)
Theorem getCategoriesHierarchy_one_level (db : Db) :
  unique_ids (categories db) ->
  Forall keyed (categories db) ->
  exists h,
    getCategoriesHierarchy db = (Returned h, db) /\
    NoDup ((fun r => r !! "id") <$> placed h) /\
    (forall c, c ∈ category <$> h <-> c ∈ categories db /\ is_root c = true) /\
    (forall e c, e ∈ h ->
       c ∈ children e <->
       c ∈ categories db /\ is_root c = false /\
       c !! "parentId" = category e !! "id") /\
    (forall c, c ∈ placed h <->
       c ∈ categories db /\
       (is_root c = true \/
        exists m, m ∈ categories db /\ is_root m = true /\
                  c !! "parentId" = m !! "id")).
Proof.
  intros Hu Hk.
  unfold getCategoriesHierarchy, getAllCategories, bind, ret, Drizzle.select.
  simpl. rewrite List.filter_true.
  set (all := Drizzle.orderBy _ (categories db)).
  assert (forall c, c ∈ all <-> c ∈ categories db) as Hall.
  { intros c. apply elem_of_orderBy. }
  assert (NoDup all) as Hnd.
  { unfold all, Drizzle.orderBy. rewrite sort_by_perm.
    by apply NoDup_fmap_1 in Hu. }
  fold is_root.
  pose proof (fun m c => child_of_iff (categories db) m c Hk) as Hchild.
  eexists. split; [reflexivity|].
  assert (forall c, c ∈ placed
            ((fun m => mkCategoryWithChildren m (List.filter (child_of m) all))
               <$> List.filter (fun cat => is_root cat) all) <->
          c ∈ categories db /\
          (is_root c = true \/
           exists m, m ∈ categories db /\ is_root m = true /\
                     c !! "parentId" = m !! "id")) as Hplaced.
  { intros c. unfold placed. rewrite list_elem_of_bind. split.
    - intros (e & Hc & He). apply list_elem_of_fmap in He as (m & -> & Hm).
      apply elem_of_filter in Hm as [Hm Hr]. apply Hall in Hm. simpl in Hc.
      apply elem_of_cons in Hc as [->|Hc]; [by auto|].
      apply elem_of_filter in Hc as [Hc Hp]. apply Hall in Hc.
      apply Hchild in Hp as [? ?]; [|done]. split; [done|]. right. eauto.
    - intros [Hc [Hr|(m & Hm & Hr & Hp)]].
      + eexists. split; [|apply list_elem_of_fmap; eexists; split; [done|]].
        * simpl. left.
        * apply elem_of_filter. split; [by apply Hall|done].
      + eexists. split; [|apply list_elem_of_fmap; eexists; split; [done|]].
        * simpl. right. apply elem_of_filter. split; [by apply Hall|].
          apply Hchild; [done|]. split; [|done].
          rewrite Forall_forall in Hk.
          destruct (Hk m Hm) as (s & Hs & Hne). rewrite Hs in Hp.
          unfold is_root. rewrite Hp. simpl.
          destruct (String.eqb s "") eqn:E; [|done]. by apply String.eqb_eq in E.
        * apply elem_of_filter. split; [by apply Hall|done]. }
  split; [|split; [|split]].
  - apply NoDup_fmap_2_strong.
    { intros x y Hx Hy Heq. apply Hplaced in Hx as [Hx _].
      apply Hplaced in Hy as [Hy _]. by apply (unique_ids_inj (categories db)). }
    unfold placed. rewrite list_fmap_bind. apply NoDup_bind.
    + intros m1 m2 y Hm1 Hm2 Hy1 Hy2. simpl in *.
      apply elem_of_filter in Hm1 as [Hm1 Hr1]. apply Hall in Hm1.
      apply elem_of_filter in Hm2 as [Hm2 Hr2]. apply Hall in Hm2.
      apply elem_of_cons in Hy1 as [->|Hy1];
        apply elem_of_cons in Hy2 as [Hy2|Hy2]; [done|..].
      * apply elem_of_filter in Hy2 as [_ Hy2].
        apply Hchild in Hy2 as [? _]; [congruence|done].
      * subst y. apply elem_of_filter in Hy1 as [_ Hy1].
        apply Hchild in Hy1 as [? _]; [congruence|done].
      * apply elem_of_filter in Hy1 as [_ Hy1].
        apply elem_of_filter in Hy2 as [_ Hy2].
        apply Hchild in Hy1 as [_ Hy1]; [|done].
        apply Hchild in Hy2 as [_ Hy2]; [|done].
        apply (unique_ids_inj (categories db)); [done..|congruence].
    + intros m Hm. simpl. apply elem_of_filter in Hm as [Hm Hr].
      apply Hall in Hm. constructor; [|by apply NoDup_List_filter].
      intros Hin. apply elem_of_filter in Hin as [_ Hin].
      apply Hchild in Hin as [? _]; [congruence|done].
    + by apply NoDup_List_filter.
  - intros c. rewrite <- list_fmap_compose. simpl. rewrite list_fmap_id.
    rewrite elem_of_filter. by rewrite Hall.
  - intros e c He. apply list_elem_of_fmap in He as (m & -> & Hm). simpl.
    apply elem_of_filter in Hm as [Hm Hr]. apply Hall in Hm.
    rewrite elem_of_filter, Hall.
    pose proof (Hchild m c Hm) as Hc. unfold child_of in Hc. by rewrite Hc.
  - exact Hplaced.
Qed.

(** In the shop the tree shows rings with engagement rings below it. *)
Lemma getCategoriesHierarchy_one_level_shop :
  unique_ids (categories shop) /\ Forall keyed (categories shop) /\
  exists h,
    getCategoriesHierarchy shop = (Returned h, shop) /\
    NoDup ((fun r => r !! "id") <$> placed h) /\
    rings ∈ category <$> h /\ engagement_rings ∈ placed h.
Proof.
  assert (unique_ids (categories shop)) as Hu by distinct_keys.
  assert (Forall keyed (categories shop)) as Hk by keyed_rows.
  split; [exact Hu|]. split; [exact Hk|].
  destruct (getCategoriesHierarchy_one_level shop Hu Hk)
    as (h & Hrun & Hnd & Hroots & _ & Hplaced).
  exists h. split; [exact Hrun|]. split; [exact Hnd|]. split.
  - apply Hroots. split; [left|reflexivity].
  - apply Hplaced. split; [right; left|]. right. exists rings.
    split; [left|]. split; reflexivity.
Defined.

(** C1, as the claim words it, fails: the solitaires category sits below
    engagement rings, which is not a root, and the tree does not show it. *)
Lemma grandchild_not_placed : ~ every_category_placed shop.
Proof.
  intros (h & Hrun & Hall).
  specialize (Hall solitaires ltac:(right; right; left)).
  apply (list_elem_of_fmap_2 (fun r : row => r !! "id")) in Hall.
  vm_compute in Hrun. injection Hrun as <-.
  vm_compute in Hall.
  repeat (apply elem_of_cons in Hall as [Hall|Hall]; [discriminate Hall|]).
  by apply not_elem_of_nil in Hall.
Qed.

(** * Deleting a category *)

Lemma has_child_iff ks id db :
  (0 <? List.length
          (Drizzle.orderBy ks
             (List.filter (col "parentId" (VText id)) (categories db))))%nat
    = true <-> has_child id db.
Proof.
  rewrite orderBy_length, filter_length_pos. unfold has_child, col.
  by setoid_rewrite sql_eq_text.
Qed.

Lemma referenced_iff slug db :
  (0 <? List.length
          (List.filter (col "category" (VText slug)) (products db)))%nat
    = true <-> referenced slug db.
Proof.
  rewrite filter_length_pos. unfold referenced, col.
  by setoid_rewrite sql_eq_text.
Qed.

(** C2. Let [C] be a stored category with key [id] and slug [slug], keys being
    unique. If some category has [parentId = id], or some product (active or
    not) has [category = slug], then [deleteCategory id] returns false and
    the database is unchanged. If neither is the case it returns true, the
    database loses exactly the rows of the category table keyed [id]: [C] is
    gone and every other category stays. *)
Theorem deleteCategory_guarded (db : Db) (C : row) (id slug : string) :
  unique_ids (categories db) ->
  C ∈ categories db ->
  C !! "id" = Some (VText id) ->
  C !! "slug" = Some (VText slug) ->
  (has_child id db \/ referenced slug db ->
   deleteCategory id db = (Returned false, db)) /\
  (¬ has_child id db -> ¬ referenced slug db ->
   exists db',
     deleteCategory id db = (Returned true, db') /\
     db' = put categoriesT
             (List.filter (fun r => negb (col "id" (VText id) r)) (categories db))
             db /\
     (C ∉ categories db') /\
     (forall D, D ∈ categories db -> D <> C -> D ∈ categories db')).
Proof.
  intros Hu HC Hid Hslug.
  pose proof (has_child_iff [Drizzle.asc "displayOrder"; Drizzle.asc "name"]
                id db) as Hch.
  pose proof (referenced_iff slug db) as Hre.
  unfold deleteCategory, getSubCategories, getCategory, bind, ret,
    Drizzle.select, Drizzle.delete. simpl.
  destruct (0 <? List.length (Drizzle.orderBy _ _))%nat.
  { split; [done|]. intros Hn. destruct Hn. by apply Hch. }
  rewrite (select_by_id _ C id Hu HC Hid). simpl. rewrite Hslug, js_or_text.
  destruct (0 <? List.length (List.filter (col "category" _) _))%nat.
  { split; [done|]. intros _ Hn. destruct Hn. by apply Hre. }
  split.
  { intros [H|H]; [apply Hch in H|apply Hre in H]; done. }
  intros _ _. rewrite (select_by_id _ C id Hu HC Hid). simpl.
  eexists. split; [reflexivity|].
  split; [done|]. simpl. split.
  - intros Hin. apply elem_of_filter in Hin as [_ Hin].
    apply negb_true_iff in Hin. apply sql_eq_text in Hid.
    unfold col in Hin. congruence.
  - intros D HD Hne. apply elem_of_filter. split; [done|].
    apply negb_true_iff. destruct (col "id" (VText id) D) eqn:E; [|done].
    apply sql_eq_text in E. destruct Hne.
    apply (unique_ids_inj (categories db)); [done..|congruence].
Qed.

(** In the shop, rings has a child and a product and stays; solitaires has
    neither and goes. *)
Lemma deleteCategory_guarded_shop :
  deleteCategory "c-rings" shop = (Returned false, shop) /\
  exists db', deleteCategory "c-solitaires" shop = (Returned true, db') /\
              (solitaires ∉ categories db') /\ rings ∈ categories db'.
Proof.
  assert (unique_ids (categories shop)) as Hu by distinct_keys.
  split.
  - apply (deleteCategory_guarded shop rings "c-rings" "rings" Hu);
      [left|reflexivity|reflexivity|].
    left. exists engagement_rings. split; [right; left|reflexivity].
  - destruct (deleteCategory_guarded shop solitaires "c-solitaires" "solitaires"
                Hu ltac:(right; right; left) eq_refl eq_refl) as [_ Hdel].
    destruct Hdel as (db' & Hrun & _ & Hgone & Hstay).
    + intros (c & Hc & Hp). vm_compute in Hc.
      repeat (apply elem_of_cons in Hc as [->|Hc]; [discriminate Hp|]).
      by apply not_elem_of_nil in Hc.
    + intros (p & Hp & Hcat). vm_compute in Hp.
      repeat (apply elem_of_cons in Hp as [->|Hp]; [discriminate Hcat|]).
      by apply not_elem_of_nil in Hp.
    + exists db'. split; [exact Hrun|]. split; [exact Hgone|].
      apply Hstay; [left|]. intros H.
      apply (f_equal (fun r : row => r !! "id")) in H. discriminate H.
Defined.

(** * Quotation numbers *)

Section Estimates.
Import JsStringFacts JsDateFacts.
Variable Date_parse : option value -> option Date.
Variable toISOString : Date -> Date.

(** A valid date lies between the first and the last instant of its own
    month. *)
Lemma month_window now :
  JsDate.valid now ->
  JsDate.le (startOfMonth now) now /\ JsDate.le now (endOfMonth now).
Proof.
  intros (Hm & Hd & Ht).
  unfold startOfMonth, endOfMonth, JsDate.getFullYear, JsDate.getMonth.
  rewrite make_first, make_last by done. unfold JsDate.le. simpl. lia.
Qed.

(** The valid dates between the first and the last instant of a month are
    those of that month. *)
Lemma month_window_iff now d :
  JsDate.valid now -> JsDate.valid d ->
  JsDate.le (startOfMonth now) d /\ JsDate.le d (endOfMonth now)
  <-> same_month d now.
Proof.
  intros (Hm & Hd & Ht) (Hm' & Hd' & Ht').
  unfold same_month, startOfMonth, endOfMonth, JsDate.getFullYear,
    JsDate.getMonth.
  rewrite make_first, make_last by done. unfold JsDate.le. simpl. split.
  - intros [H1 H2]. lia.
  - intros [Hy Hmo]. rewrite Hy, Hmo in *. lia.
Qed.

Lemma daysInMonth_bounds y m : 28 <= JsDate.daysInMonth y m <= 31.
Proof.
  unfold JsDate.daysInMonth.
  destruct (m =? 1); [destruct (JsDate.isLeap y); lia|].
  destruct ((m =? 3) || (m =? 5) || (m =? 8) || (m =? 10)); lia.
Qed.

Lemma startOfMonth_valid now : JsDate.valid now -> JsDate.valid (startOfMonth now).
Proof.
  intros (Hm & Hd & Ht). unfold startOfMonth, JsDate.getFullYear, JsDate.getMonth.
  rewrite make_first by done. unfold JsDate.valid. simpl.
  pose proof (daysInMonth_bounds (JsDate.year now) (JsDate.month now)). lia.
Qed.

Lemma endOfMonth_valid now : JsDate.valid now -> JsDate.valid (endOfMonth now).
Proof.
  intros (Hm & Hd & Ht). unfold endOfMonth, JsDate.getFullYear, JsDate.getMonth.
  rewrite make_last by done. unfold JsDate.valid. simpl.
  pose proof (daysInMonth_bounds (JsDate.year now) (JsDate.month now)). lia.
Qed.

(** The month filter of [createEstimate] tests the stored reading against
    the window that is sent. *)
Lemma inMonthOf_in_window now d (r : row) :
  r !! "createdAt" = Some (VTime d) ->
  inMonthOf toISOString now r = true <-> in_window toISOString now d.
Proof.
  intros Hr. unfold inMonthOf, in_window, sql_gte, sql_lte. rewrite Hr.
  by rewrite andb_true_iff, !leb_le.
Qed.

(** When the store's readings are in UTC, the filter keeps the rows created
    in the calendar month of [now], as the application's zone counts it. *)
Lemma inMonthOf_same_month now d (r : row) :
  keeps_order toISOString -> JsDate.valid now -> JsDate.valid d ->
  r !! "createdAt" = Some (VTime (toISOString d)) ->
  inMonthOf toISOString now r = true <-> same_month d now.
Proof.
  intros Hk Vn Vd Hr. rewrite (inMonthOf_in_window now _ r Hr).
  unfold in_window.
  rewrite (Hk _ _ (startOfMonth_valid now Vn) Vd).
  rewrite (Hk _ _ Vd (endOfMonth_valid now Vn)).
  by apply month_window_iff.
Qed.

(** The reading in UTC of an instant between two clock readings of one
    month lies in the window of that month. *)
Lemma in_window_between now1 now2 d :
  keeps_order toISOString ->
  JsDate.valid now1 -> JsDate.valid now2 -> JsDate.valid d ->
  same_month now1 now2 -> JsDate.le now1 d -> JsDate.le d now2 ->
  in_window toISOString now2 (toISOString d).
Proof.
  intros Hk V1 V2 Vd [Hy Hm] H1 H2. unfold in_window.
  rewrite (Hk _ _ (startOfMonth_valid now2 V2) Vd).
  rewrite (Hk _ _ Vd (endOfMonth_valid now2 V2)). split.
  - replace (startOfMonth now2) with (startOfMonth now1)
      by (unfold startOfMonth; by rewrite Hy, Hm).
    eapply le_trans; [|exact H1]. by apply month_window.
  - eapply le_trans; [exact H2|]. by apply month_window.
Qed.

Lemma inMonthOf_ext now1 now2 r :
  same_month now1 now2 ->
  inMonthOf toISOString now1 r = inMonthOf toISOString now2 r.
Proof.
  intros [Hy Hm]. unfold inMonthOf, startOfMonth, endOfMonth.
  by rewrite Hy, Hm.
Qed.

Lemma quotationNo_of_numbered now n :
  Some (VText (quotationNo_of now n)) = numbered now (n + 1).
Proof.
  unfold quotationNo_of, numbered, quotation_prefix.
  by rewrite !append_assoc.
Qed.

Lemma numbered_inj now n m : numbered now n = numbered now m -> n = m.
Proof.
  unfold numbered. intros [= H]. apply append_inj_r in H.
  by apply padStart_of_nat_inj in H.
Qed.

(** One call that returns: the row is appended, numbered after the
    estimates in the window, and stamped by the store unless the caller
    supplied a stamp of its own. *)
Lemma createEstimate_Returned db db' uuid now dbNow (input : row) o :
  createEstimate Date_parse toISOString uuid now dbNow input db
    = (Returned o, db') ->
  exists e,
    o = Some e /\
    db' = put estimatesT (estimates db ++ [e])%list db /\
    e !! "quotationNo"
      = numbered now (monthly_count toISOString now db + 1) /\
    (input !! "createdAt" = None -> e !! "createdAt" = Some (VTime dbNow)) /\
    (forall v, input !! "createdAt" = Some v -> e !! "createdAt" = Some v).
Proof.
  unfold createEstimate, bind, ret, throw, Drizzle.select. simpl.
  destruct (as_Date Date_parse (input !! "validUntil")) as [validUntil|];
    [|done].
  destruct (insert_checked _ _ _ _ db) as [[rs|msg] db1] eqn:E; [|done].
  apply insert_checked_Returned in E as (-> & -> & _ & _).
  intros [= <- <-]. eexists. split; [reflexivity|]. split; [done|]. split.
  - rewrite <- quotationNo_of_numbered.
    apply new_row_lookup_Some; [set_solver|].
    rewrite lookup_insert_ne by done. by rewrite lookup_insert_eq.
  - split.
    + intros Hc. apply new_row_lookup_default; [|done].
      by rewrite !lookup_insert_ne by done.
    + intros v Hv. apply new_row_lookup_Some; [set_solver|].
      by rewrite !lookup_insert_ne by done.
Qed.

(** A call that raises writes nothing. *)
Lemma createEstimate_Raised db db' uuid now dbNow (input : row) msg :
  createEstimate Date_parse toISOString uuid now dbNow input db
    = (Raised msg, db') -> db' = db.
Proof.
  unfold createEstimate, bind, ret, throw, Drizzle.select. simpl.
  destruct (as_Date Date_parse (input !! "validUntil")) as [validUntil|];
    [|by intros [= _ <-]].
  destruct (insert_checked _ _ _ _ db) as [[rs|msg'] db1] eqn:E; [done|].
  apply insert_checked_Raised in E as ->. by intros [= _ <-].
Qed.


End Estimates.

Ltac valid_date := unfold JsDate.valid; simpl; vm_compute; intuition discriminate.

(** In a zone ahead of UTC by less than a day, [toISOString] keeps the
    order of valid readings. *)
Lemma zone_keeps_order offset :
  0 <= offset < 86400000 -> keeps_order (zone_toISOString offset).
Proof.
  intros Hoff [ya ma da ta] [yb mb db tb] (Hma & Hda & Hta) (Hmb & Hdb & Htb).
  simpl in *.
  assert (forall y m y' m', y = y' -> m = m' ->
            JsDate.daysInMonth y m = JsDate.daysInMonth y' m') as Hc
    by (by intros; subst).
  pose proof (Hc ya ma yb mb) as C1.
  pose proof (Hc ya (ma - 1) yb mb) as C2.
  pose proof (Hc ya ma yb (mb - 1)) as C3.
  pose proof (Hc ya (ma - 1) yb (mb - 1)) as C4.
  pose proof (daysInMonth_bounds ya ma).
  pose proof (daysInMonth_bounds ya (ma - 1)).
  pose proof (daysInMonth_bounds yb mb).
  pose proof (daysInMonth_bounds yb (mb - 1)).
  clear Hc.
  unfold zone_toISOString, plus_ms, prevDay, JsDate.le. simpl.
  destruct (Z.ltb_spec (ta + - offset) 0), (Z.ltb_spec (tb + - offset) 0);
    simpl;
    repeat match goal with
    | |- context [86400000 <=? ?t] => destruct (Z.leb_spec 86400000 t); [lia|]
    end;
    destruct (Z.eqb_spec da 1), (Z.eqb_spec db 1);
    destruct (Z.eqb_spec ma 0), (Z.eqb_spec mb 0); simpl; lia.
Qed.

Ltac in_the_window :=
  unfold in_window; split; apply JsDateFacts.leb_le; vm_compute; reflexivity.



(** * Products *)

(** C5. In every database state, [getAllProducts], [getProduct id] and
    [getProductsByCategory cat] leave the database alone and return stored
    products whose [isActive] is true only; [getProduct id] returns absent
    exactly when no active product carries the key, so an inactive product is
    not returned. *)
Theorem product_reads_only_active (db : Db) (id cat : string) :
  (exists ps, getAllProducts db = (Returned ps, db) /\
     Forall (fun p => p ∈ products db /\ active p) ps) /\
  (exists r, getProduct id db = (Returned r, db) /\
     match r with
     | Some p => p ∈ products db /\ p !! "id" = Some (VText id) /\ active p
     | None => Forall (fun p => ~ (p !! "id" = Some (VText id) /\ active p))
                 (products db)
     end) /\
  (exists ps, getProductsByCategory cat db = (Returned ps, db) /\
     Forall (fun p => p ∈ products db /\
                      p !! "category" = Some (VText cat) /\ active p) ps).
Proof.
  split; [|split].
  - eexists; split; [reflexivity|].
    apply Forall_forall. intros p Hp.
    apply elem_of_orderBy, elem_of_filter in Hp as [Hin Hact].
    split; [done|]. by apply sql_eq_bool.
  - eexists; split; [reflexivity|]. simpl.
    destruct (List.filter _ (products db)) as [|p l] eqn:E; simpl.
    + apply Forall_forall. intros p Hp [Hid Hact].
      eapply filter_nil_iff in E; [|exact Hp]. simpl in E.
      apply andb_false_iff in E as [E|E].
      * apply sql_eq_text in Hid. unfold col in E. congruence.
      * apply sql_eq_bool in Hact. unfold col in E. congruence.
    + assert (p ∈ p :: l) as Hp by left.
      rewrite <- E in Hp. apply elem_of_filter in Hp as [Hin Hc].
      apply andb_true_iff in Hc as [H1 H2].
      apply sql_eq_text in H1. apply sql_eq_bool in H2. done.
  - eexists; split; [reflexivity|].
    apply Forall_forall. intros p Hp.
    apply elem_of_orderBy, elem_of_filter in Hp as [Hin Hc].
    apply andb_true_iff in Hc as [H1 H2].
    apply sql_eq_text in H1. apply sql_eq_bool in H2. done.
Qed.

Lemma set_inactive (p : row) :
  Drizzle.apply_set productsT {[ "isActive" := VBool false ]} p
  = <["isActive" := VBool false]> p.
Proof.
  unfold Drizzle.apply_set. rewrite restrict_singleton.
  - by rewrite insert_union_singleton_l.
  - simpl. set_solver.
Qed.

(** C6. [deleteProduct id] keeps every row of the product table and only
    overwrites [isActive] with false in the rows keyed [id]; it returns true
    iff such a row exists; and [getProduct id] on the resulting database
    returns absent. *)
Theorem deleteProduct_soft (db : Db) (id : string) :
  exists (b : bool) (db' : Db),
    deleteProduct id db = (Returned b, db') /\
    (b = true <-> exists p, p ∈ products db /\ p !! "id" = Some (VText id)) /\
    db' = put productsT (map (soft_delete id) (products db)) db /\
    getProduct id db' = (Returned None, db').
Proof.
  do 2 eexists. split; [reflexivity|]. simpl.
  split; [|split].
  - rewrite bool_decide_eq_true.
    destruct (List.filter _ (products db)) as [|p l] eqn:E; simpl.
    + split; [by intros []|]. intros (p & Hin & Hid).
      eapply filter_nil_iff in E; [|exact Hin].
      apply sql_eq_text in Hid. unfold col in E. congruence.
    + split; [intros _|by eauto].
      assert (p ∈ p :: l) as Hp by left.
      rewrite <- E in Hp. apply elem_of_filter in Hp as [Hin Hc].
      apply sql_eq_text in Hc. eauto.
  - f_equal. apply map_ext. intros p. unfold soft_delete.
    by rewrite set_inactive.
  - unfold getProduct, bind, ret, Drizzle.select. simpl.
    replace (List.filter _ _) with (@nil row); [done|].
    symmetry. apply filter_nil_iff. intros p Hp.
    apply list_elem_of_fmap in Hp as (q & -> & Hq).
    apply andb_false_iff.
    destruct (col "id" (VText id) q) eqn:E; rewrite ?set_inactive.
    + right. unfold col. by rewrite lookup_insert_eq.
    + by left.
Qed.

(** * Home section items *)

(** What the join guarantees: a returned item belongs to the section and
    comes with a stored product row whose key equals the item's [productId],
    so an item whose product row has been removed is not returned. Whether that
    product is active plays no role. *)
Lemma getHomeSectionItems_joined (db : Db) (sectionId : string) :
  exists l,
    getHomeSectionItems sectionId db = (Returned l, db) /\
    Forall (fun e =>
              item e ∈ homeSectionItems db /\
              item e !! "sectionId" = Some (VText sectionId) /\
              product e ∈ products db /\
              Drizzle.on_eq "productId" "id" (item e) (product e) = true /\
              forall pid, product e !! "id" = Some (VText pid) ->
                          item e !! "productId" = Some (VText pid)) l.
Proof.
  eexists. split; [reflexivity|]. apply Forall_forall. intros e He.
  apply list_elem_of_fmap in He as ([i p] & -> & Hip). simpl.
  rewrite sort_by_perm in Hip.
  apply elem_of_filter in Hip as [Hj Hs]. simpl in Hs.
  apply sql_eq_text in Hs.
  unfold Drizzle.innerJoin in Hj. apply list_elem_of_In, in_flat_map in Hj.
  destruct Hj as (x & Hx & Hxy). apply in_map_iff in Hxy as (y & [= <- <-] & Hy).
  apply filter_In in Hy as [Hy Hon]. rewrite <- !list_elem_of_In in *.
  split; [done|]. split; [done|]. split; [done|]. split; [done|].
  intros pid Hpid. unfold Drizzle.on_eq in Hon. rewrite Hpid in Hon.
  by apply sql_eq_text.
Qed.

(** C4 fails on the code. Soft-deleting the gold ring hides it from
    [getProduct], yet the featured section still returns its showcase item,
    carrying the product row with [isActive = false]. *)
Lemma getHomeSectionItems_shows_soft_deleted :
  exists db' e,
    deleteProduct "p-1" shop = (Returned true, db') /\
    getProduct "p-1" db' = (Returned None, db') /\
    getHomeSectionItems "s-1" db' = (Returned [e], db') /\
    item e = showcase /\
    product e !! "id" = Some (VText "p-1") /\
    product e !! "isActive" = Some (VBool false).
Proof.
  do 2 eexists. split; [reflexivity|]. split; [reflexivity|].
  split; [reflexivity|]. split; [reflexivity|]. split; reflexivity.
Qed.

(** * Bills *)

Section NewBill.
Variable num : Type.
Variable Number : option value -> num.
Variable num_zero : num.
Variable num_add num_sub : num -> num -> num.
Variable pg_numeric : num -> string.
Variable numeric_overflow : num -> bool.


End NewBill.

Section Bills.
Variable num : Type.
Variable Number : option value -> num.
Variable num_zero : num.
Variable num_add num_sub : num -> num -> num.
Variable pg_numeric : num -> string.

Lemma Number_or_0_component billData k :
  Number_or_0 Number num_zero (billData !! k)
  = component Number num_zero billData k.
Proof. unfold component. by destruct (billData !! k). Qed.


End Bills.




(** * Authentication *)

(** The first row that passes a filter, and no row passing it. *)
Lemma filter_head {A} (p : A -> bool) (l : list A) (x : A) :
  head (List.filter p l) = Some x <->
  exists before after,
    l = (before ++ x :: after)%list /\ p x = true /\
    Forall (fun y => p y = false) before.
Proof.
  induction l as [|y l IH]; simpl.
  - split; [done|]. intros (before & after & H & _). by destruct before.
  - destruct (p y) eqn:E; simpl.
    + split.
      * intros [= ->]. by exists [], l.
      * intros ([|z before] & after & H & Hx & Hb).
        -- by injection H as -> _.
        -- injection H as -> _. apply Forall_cons_1 in Hb as [Hz _].
           congruence.
    + rewrite IH. split.
      * intros (before & after & -> & Hx & Hb).
        exists (y :: before), after. split; [done|]. split; [done|].
        by apply Forall_cons_2.
      * intros ([|z before] & after & H & Hx & Hb).
        -- injection H as -> _. congruence.
        -- injection H as -> ->. apply Forall_cons_1 in Hb as [_ Hb].
           by exists before, after.
Qed.

Lemma filter_head_None {A} (p : A -> bool) (l : list A) :
  head (List.filter p l) = None <-> Forall (fun y => p y = false) l.
Proof.
  induction l as [|y l IH]; simpl.
  - split; [by constructor|done].
  - destruct (p y) eqn:E; simpl.
    + split; [done|]. intros H. apply Forall_cons_1 in H as [H _]. congruence.
    + rewrite IH. split.
      * intros H. by apply Forall_cons_2.
      * intros H. by apply Forall_cons_1 in H as [_ H].
Qed.

Lemma col_false_iff c s (r : row) :
  col c (VText s) r = false <-> r !! c <> Some (VText s).
Proof.
  unfold col. destruct (sql_eq (r !! c) (VText s)) eqn:E.
  - apply sql_eq_text in E. split; [done|]. by intros H.
  - split; [|done]. intros _ H. apply sql_eq_text in H. congruence.
Qed.

(** [getUserByEmail] returns the first row of the user table with the
    email, and absent when there is none. *)
Lemma getUserByEmail_first db email u :
  getUserByEmail email db = (Returned (Some u), db)
  <-> first_with_email email db u.
Proof.
  unfold getUserByEmail, bind, ret, Drizzle.select, first_with_email. simpl.
  split.
  - intros [= H]. apply filter_head in H as (before & after & H & Hu & Hb).
    exists before, after. split; [done|]. split; [by apply sql_eq_text|].
    eapply Forall_impl; [exact Hb|]. intros v. by apply col_false_iff.
  - intros (before & after & H & Hu & Hb). f_equal. f_equal.
    apply filter_head. exists before, after. split; [done|].
    split; [by apply sql_eq_text|].
    eapply Forall_impl; [exact Hb|]. intros v. by apply col_false_iff.
Qed.

Lemma getUserByEmail_unknown db email :
  getUserByEmail email db = (Returned None, db) <-> unknown_email email db.
Proof.
  unfold getUserByEmail, bind, ret, Drizzle.select, unknown_email. simpl.
  split.
  - intros [= H]. apply filter_head_None in H.
    eapply Forall_impl; [exact H|]. intros v. by apply col_false_iff.
  - intros H. f_equal. f_equal. apply filter_head_None.
    eapply Forall_impl; [exact H|]. intros v. by apply col_false_iff.
Qed.

Section Authentication.
Variable bcrypt_compare : string -> string -> bool.

(** C8. With the password column holding a hash in every user row,
    [authenticateUser email password] never raises and never writes. It
    returns a user exactly when that user is the row of the user table with
    the email (the first, should there be several) and the password
    verifies against its stored hash; it returns null both when the table
    has no row with the email and when the password does not verify against
    the hash of the row with the email. *)
Theorem authenticateUser_null_or_user (db : Db) (email password : string) :
  Forall has_password_hash (users db) ->
  exists r,
    authenticateUser bcrypt_compare email password db = (Returned r, db) /\
    (forall u, r = Some u <->
       first_with_email email db u /\ verifies bcrypt_compare password u) /\
    (r = None <->
       unknown_email email db \/
       exists u, first_with_email email db u /\
                 ~ verifies bcrypt_compare password u).
Proof.
  intros Hwf.
  setoid_rewrite <- getUserByEmail_first.
  setoid_rewrite <- getUserByEmail_unknown.
  unfold authenticateUser, getUserByEmail, bind, ret, Drizzle.select, verifies.
  simpl.
  destruct (List.filter _ (users db)) as [|u l] eqn:E; simpl.
  - eexists. split; [reflexivity|]. split.
    + intros u. split; [done|]. by intros [[=] _].
    + split; [by left|done].
  - assert (u ∈ users db) as Hu.
    { assert (u ∈ u :: l) as Hu by left. rewrite <- E in Hu.
      by apply elem_of_filter in Hu as [? _]. }
    rewrite Forall_forall in Hwf. destruct (Hwf u Hu) as [hash Hh].
    rewrite Hh. destruct (bcrypt_compare password hash) eqn:Hc.
    + eexists. split; [reflexivity|]. split.
      * intros u'. split.
        -- intros [= <-]. split; [done|]. eauto.
        -- by intros [[= ->] _].
      * split; [done|]. intros [[=]|(u' & [= <-] & Hn)].
        destruct Hn. eauto.
    + eexists. split; [reflexivity|]. split.
      * intros u'. split; [done|]. intros [[= <-] (h & Hh' & Hc')].
        congruence.
      * split; [|done]. intros _. right. exists u. split; [done|].
        intros (h & Hh' & Hc'). congruence.
Qed.

End Authentication.

(** In the shop: an unknown email gives null, a wrong password for alice
    gives null, and her password gives her row. *)
Lemma authenticateUser_null_or_user_shop :
  Forall has_password_hash (users shop) /\
  authenticateUser toy_compare "nouser@x.com" "anything" shop
    = (Returned None, shop) /\
  authenticateUser toy_compare "alice@example.com" "guess" shop
    = (Returned None, shop) /\
  authenticateUser toy_compare "alice@example.com" "secret" shop
    = (Returned (Some alice), shop).
Proof.
  assert (Forall has_password_hash (users shop)) as Hwf.
  { apply Forall_cons_2; [|apply Forall_nil_2]. eexists. reflexivity. }
  assert (first_with_email "alice@example.com" shop alice) as Halice.
  { exists [], []. split; [reflexivity|]. split; [reflexivity|].
    apply Forall_nil_2. }
  split; [exact Hwf|]. split; [|split].
  - destruct (authenticateUser_null_or_user toy_compare shop "nouser@x.com"
                "anything" Hwf) as (r & Hrun & _ & Hnone).
    rewrite Hrun. f_equal. f_equal. apply Hnone. left.
    apply Forall_cons_2; [discriminate|apply Forall_nil_2].
  - destruct (authenticateUser_null_or_user toy_compare shop
                "alice@example.com" "guess" Hwf) as (r & Hrun & _ & Hnone).
    rewrite Hrun. f_equal. f_equal. apply Hnone. right. exists alice.
    split; [exact Halice|]. intros (hash & Hh & Hc).
    injection Hh as <-. discriminate Hc.
  - destruct (authenticateUser_null_or_user toy_compare shop
                "alice@example.com" "secret" Hwf) as (r & Hrun & Hsome & _).
    rewrite Hrun. f_equal. f_equal. apply Hsome. split; [exact Halice|].
    exists "hash:secret". split; reflexivity.
Defined.

(** * Updates of a missing row *)

Lemma names_column_restrict t (o : row) :
  names_column t o <-> Drizzle.restrict (columns t) o <> ∅.
Proof.
  unfold names_column. split.
  - intros (k & Hk & [v Hv]) He.
    apply (f_equal (fun m : row => m !! k)) in He.
    rewrite restrict_lookup, decide_True, Hv, lookup_empty in He by done.
    discriminate He.
  - intros Hne. apply map_choose in Hne as (k & v & Hkv).
    rewrite restrict_lookup in Hkv.
    destruct (decide (k ∈ columns t)) as [Hk|]; [|done].
    exists k. split; [done|]. by exists v.
Qed.

Lemma names_column_non_empty t (o : row) : names_column t o -> o <> ∅.
Proof. intros (k & _ & [v Hv]) ->. by rewrite lookup_empty in Hv. Qed.

(** A checked update of a key no row carries: it raises on an object that
    names no column, and matches nothing otherwise. *)
Lemma update_set_absent t (o : row) id db :
  lawful t -> absent_from t id db ->
  Drizzle.update_set t o (col "id" (VText id)) db
  = if bool_decide (o = ∅) then (Raised "No values to set", db)
    else if bool_decide (Drizzle.restrict (columns t) o = ∅)
    then (Raised "syntax error at or near where", db)
    else (Returned [], db).
Proof.
  intros Ht Habs. unfold Drizzle.update_set.
  destruct (bool_decide (o = ∅)); [done|].
  destruct (bool_decide (Drizzle.restrict (columns t) o = ∅)); [done|].
  by apply update_absent.
Qed.

Lemma update_set_names_column t (o : row) id db :
  lawful t -> absent_from t id db -> names_column t o ->
  Drizzle.update_set t o (col "id" (VText id)) db = (Returned [], db).
Proof.
  intros Ht Habs Hn. rewrite update_set_absent by done.
  rewrite bool_decide_eq_false_2 by by apply names_column_non_empty in Hn.
  by rewrite bool_decide_eq_false_2 by by apply names_column_restrict.
Qed.

Lemma update_set_no_column t (o : row) id db :
  lawful t -> absent_from t id db -> ~ names_column t o ->
  exists msg, Drizzle.update_set t o (col "id" (VText id)) db = (Raised msg, db).
Proof.
  intros Ht Habs Hn. rewrite update_set_absent by done.
  destruct (bool_decide (o = ∅)); [by eexists|].
  rewrite bool_decide_eq_true_2; [by eexists|].
  destruct (decide (Drizzle.restrict (columns t) o = ∅)) as [|Hne]; [done|].
  by apply names_column_restrict in Hne.
Qed.

(** The two shapes of an update method, at a key no row carries. *)
Lemma update_returns_absent t (o : row) id db :
  lawful t -> absent_from t id db ->
  (await rs <- Drizzle.update t o (col "id" (VText id)) in ret (head rs)) db
  = (Returned None, db).
Proof. intros Ht Ha. unfold bind. by rewrite update_absent. Qed.

Lemma update_set_returns_absent t (o : row) id db :
  lawful t -> absent_from t id db -> names_column t o ->
  (await rs <- Drizzle.update_set t o (col "id" (VText id)) in ret (head rs)) db
  = (Returned None, db).
Proof. intros Ht Ha Hn. unfold bind. by rewrite update_set_names_column. Qed.

Lemma update_set_raises t (o : row) id db :
  lawful t -> absent_from t id db -> ~ names_column t o ->
  exists msg,
    (await rs <- Drizzle.update_set t o (col "id" (VText id)) in ret (head rs)) db
    = (Raised msg, db).
Proof.
  intros Ht Ha Hn. unfold bind.
  destruct (update_set_no_column t o id db Ht Ha Hn) as [msg ->]. by exists msg.
Qed.

Ltac a_table := unfold all_tables; apply list_elem_of_In; simpl; tauto.

Section Updates.
Variable bcrypt_hash : string -> nat -> string -> string.
Variable num : Type.
Variable Number : option value -> num.
Variable num_zero : num.
Variable num_add num_sub : num -> num -> num.
Variable pg_numeric : num -> string.
Variable Date_parse : option value -> option Date.


End Updates.



(** * Ordered listings *)

Section Comparisons.
Context {A : Type} (P : A -> Prop).

Lemma cmp_eq_r cmp a b c :
  lawful_cmp P cmp -> P a -> P b -> P c ->
  cmp b c = Eq -> cmp a c = cmp a b.
Proof.
  intros L Ha Hb Hc H.
  assert (cmp c b = Eq) as H' by (by rewrite (cmp_opp P cmp L), H).
  pose proof (cmp_eq_l P cmp L c b a Hc Hb Ha H') as E.
  rewrite (cmp_opp P cmp L a c), (cmp_opp P cmp L a b) in E.
  destruct (cmp a c), (cmp a b); simpl in E; congruence.
Qed.

Lemma cmp_le_trans cmp a b c :
  lawful_cmp P cmp -> P a -> P b -> P c ->
  cmp_le cmp a b -> cmp_le cmp b c -> cmp_le cmp a c.
Proof.
  intros L Ha Hb Hc Hab Hbc. unfold cmp_le in *.
  destruct (cmp a b) eqn:E1; [| |done].
  - by rewrite (cmp_eq_l P cmp L a b c).
  - destruct (cmp b c) eqn:E2; [| |done].
    + by rewrite (cmp_eq_r cmp a b c), E1.
    + by rewrite (cmp_lt_trans P cmp L a b c).
Qed.

Lemma lawful_lex cmp1 cmp2 :
  lawful_cmp P cmp1 -> lawful_cmp P cmp2 ->
  lawful_cmp P (fun a b => match cmp1 a b with Eq => cmp2 a b | c => c end).
Proof.
  intros L1 L2. split.
  - intros a b. rewrite (cmp_opp P cmp1 L1 a b), (cmp_opp P cmp2 L2 a b).
    by destruct (cmp1 a b).
  - intros a b c Ha Hb Hc H.
    destruct (cmp1 a b) eqn:E1; try done.
    rewrite (cmp_eq_l P cmp1 L1 a b c) by done.
    by rewrite (cmp_eq_l P cmp2 L2 a b c).
  - intros a b c Ha Hb Hc Hab Hbc.
    destruct (cmp1 a b) eqn:E1; try done;
      destruct (cmp1 b c) eqn:E2; try done.
    + rewrite (cmp_eq_l P cmp1 L1 a b c), E2 by done.
      by apply (cmp_lt_trans P cmp2 L2 a b c).
    + by rewrite (cmp_eq_l P cmp1 L1 a b c), E2.
    + by rewrite (cmp_eq_r cmp1 a b c), E1.
    + by rewrite (cmp_lt_trans P cmp1 L1 a b c).
Qed.

Lemma lawful_opp cmp :
  lawful_cmp P cmp -> lawful_cmp P (fun a b => CompOpp (cmp a b)).
Proof.
  intros L. split.
  - intros a b. by rewrite (cmp_opp P cmp L a b).
  - intros a b c Ha Hb Hc H. f_equal. apply (cmp_eq_l P cmp L); [done..|].
    by destruct (cmp a b).
  - intros a b c Ha Hb Hc Hab Hbc.
    assert (cmp c b = Lt) as H1.
    { rewrite (cmp_opp P cmp L). by destruct (cmp b c). }
    assert (cmp b a = Lt) as H2.
    { rewrite (cmp_opp P cmp L). by destruct (cmp a b). }
    pose proof (cmp_lt_trans P cmp L c b a Hc Hb Ha H1 H2) as H3.
    rewrite (cmp_opp P cmp L) in H3. by destruct (cmp a c).
Qed.

Lemma lawful_const : lawful_cmp P (fun _ _ : A => Eq).
Proof. by split. Qed.

End Comparisons.

Module OrderFacts.

Lemma date_compare_Eq a b : JsDate.compare a b = Eq <-> a = b.
Proof.
  destruct a as [y1 m1 d1 t1], b as [y2 m2 d2 t2]. unfold JsDate.compare. simpl.
  destruct (Z.compare_spec y1 y2); destruct (Z.compare_spec m1 m2);
    destruct (Z.compare_spec d1 d2); destruct (Z.compare_spec t1 t2);
    split; (done || (intros [=]; lia) || (intros; subst; done)).
Qed.


Lemma date_compare_Lt a b :
  JsDate.compare a b = Lt <->
  JsDate.year a < JsDate.year b \/
  (JsDate.year a = JsDate.year b /\
   (JsDate.month a < JsDate.month b \/
    (JsDate.month a = JsDate.month b /\
     (JsDate.date a < JsDate.date b \/
      (JsDate.date a = JsDate.date b /\ JsDate.time a < JsDate.time b))))).
Proof.
  unfold JsDate.compare.
  destruct (Z.compare_spec (JsDate.year a) (JsDate.year b));
    destruct (Z.compare_spec (JsDate.month a) (JsDate.month b));
    destruct (Z.compare_spec (JsDate.date a) (JsDate.date b));
    destruct (Z.compare_spec (JsDate.time a) (JsDate.time b));
    split; (done || lia).
Qed.

Lemma date_compare_opp a b : JsDate.compare b a = CompOpp (JsDate.compare a b).
Proof.
  unfold JsDate.compare.
  rewrite (Z.compare_antisym (JsDate.year a)), (Z.compare_antisym (JsDate.month a)),
    (Z.compare_antisym (JsDate.date a)), (Z.compare_antisym (JsDate.time a)).
  destruct (JsDate.year a ?= JsDate.year b); simpl; try done.
  destruct (JsDate.month a ?= JsDate.month b); simpl; try done.
  destruct (JsDate.date a ?= JsDate.date b); simpl; done.
Qed.

Lemma string_compare_lt_trans (a b c : string) :
  String.compare a b = Lt -> String.compare b c = Lt -> String.compare a c = Lt.
Proof.
  intros H1 H2.
  assert (String.le a c) as Hle.
  { transitivity b; unfold String.le, String.leb; [by rewrite H1|by rewrite H2]. }
  unfold String.le, String.leb in Hle.
  destruct (String.compare a c) eqn:E; [|done|done].
  apply String.compare_eq_iff in E. subst c.
  rewrite String.compare_antisym, H1 in H2. done.
Qed.

Lemma string_compare_refl (a : string) : String.compare a a = Eq.
Proof.
  pose proof (String.compare_antisym a a) as H.
  destruct (String.compare a a); simpl in H; congruence.
Qed.

(** Within one column kind, NULLs last, [cmp_value] is an order. *)
Lemma cmp_value_lawful k : lawful_cmp (of_kind k) Drizzle.cmp_value.
Proof.
  split.
  - intros [[| s | b | n | d | j]|] [[| s' | b' | n' | d' | j']|]; simpl; try done.
    + by rewrite String.compare_antisym.
    + by destruct b, b'.
    + by rewrite Z.compare_antisym.
    + apply date_compare_opp.
  - intros [[| s | b | n | d | j]|] [[| s' | b' | n' | d' | j']|]
           [[| s'' | b'' | n'' | d'' | j'']|] Ha Hb Hc; simpl in *;
      try done; try congruence.
    + intros H. apply String.compare_eq_iff in H. by subst.
    + destruct b, b'; simpl; try done.
    + intros H. apply Z.compare_eq in H. by subst.
    + intros H. apply date_compare_Eq in H. by subst.
  - intros [[| s | b | n | d | j]|] [[| s' | b' | n' | d' | j']|]
           [[| s'' | b'' | n'' | d'' | j'']|] Ha Hb Hc; simpl in *;
      try done; try congruence.
    + apply string_compare_lt_trans.
    + destruct b, b', b''; simpl; done.
    + rewrite !Z.compare_lt_iff. lia.
    + rewrite !date_compare_Lt. lia.
Qed.

Lemma lawful_weaken {A} (P Q : A -> Prop) cmp :
  (forall a, Q a -> P a) -> lawful_cmp P cmp -> lawful_cmp Q cmp.
Proof.
  intros HPQ L. split.
  - apply (cmp_opp P cmp L).
  - intros a b c Ha Hb Hc. apply (cmp_eq_l P cmp L); auto.
  - intros a b c Ha Hb Hc. apply (cmp_lt_trans P cmp L); auto.
Qed.

Lemma lawful_on {A B} (f : B -> A) (P : A -> Prop) cmp :
  lawful_cmp P cmp -> lawful_cmp (fun b => P (f b)) (fun a b => cmp (f a) (f b)).
Proof.
  intros L. split.
  - intros a b. apply (cmp_opp P cmp L).
  - intros a b c. apply (cmp_eq_l P cmp L).
  - intros a b c. apply (cmp_lt_trans P cmp L).
Qed.

Lemma cmp_key_lawful cs key k :
  (key_column key, k) ∈ cs ->
  lawful_cmp (well_kinded cs) (Drizzle.cmp_key key).
Proof.
  intros Hin.
  assert (forall r, well_kinded cs r -> of_kind k (r !! key_column key)) as Hk.
  { intros r Hr. unfold well_kinded in Hr. rewrite Forall_forall in Hr.
    apply (Hr _ Hin). }
  apply (lawful_weaken _ _ _ Hk).
  destruct key as [c|c]; simpl.
  - apply (lawful_on (fun r : row => r !! c)), cmp_value_lawful.
  - apply lawful_opp.
    apply (lawful_on (fun r : row => r !! c)), cmp_value_lawful.
Qed.

(** [ORDER BY] over columns of known kinds compares by a lawful order. *)
Lemma cmp_keys_lawful cs ks :
  Forall (fun key => exists k, (key_column key, k) ∈ cs) ks ->
  lawful_cmp (well_kinded cs) (Drizzle.cmp_keys ks).
Proof.
  induction 1 as [|key ks [k Hk] _ IH]; simpl.
  - apply lawful_const.
  - apply (lawful_lex _ (Drizzle.cmp_key key) (Drizzle.cmp_keys ks)); [|done].
    by eapply cmp_key_lawful.
Qed.

End OrderFacts.

Import JsStringFacts JsDateFacts OrderFacts.


Section Sorting.
Context {A : Type} (P : A -> Prop) (cmp : A -> A -> comparison).
Hypothesis L : lawful_cmp P cmp.

Lemma Forall_List_filter (Q : A -> Prop) (p : A -> bool) l :
  Forall Q l -> Forall Q (List.filter p l).
Proof.
  rewrite !Forall_forall. intros H x Hx.
  apply elem_of_filter in Hx as [Hx _]. auto.
Qed.

Lemma insert_sorted_sorted x l :
  P x -> Forall P l -> StronglySorted (cmp_le cmp) l ->
  StronglySorted (cmp_le cmp) (Drizzle.insert_sorted cmp x l).
Proof.
  intros Hx Hl Hs. induction Hs as [|y l Hs IH Hy]; simpl.
  - repeat constructor.
  - apply Forall_cons in Hl as [Py Hl].
    destruct (cmp x y) eqn:E.
    + constructor; [by constructor|]. constructor; [unfold cmp_le; congruence|].
      rewrite Forall_forall in Hy, Hl |- *. intros z Hz.
      apply (cmp_le_trans P cmp x y z); auto. unfold cmp_le; congruence.
    + constructor; [by constructor|]. constructor; [unfold cmp_le; congruence|].
      rewrite Forall_forall in Hy, Hl |- *. intros z Hz.
      apply (cmp_le_trans P cmp x y z); auto. unfold cmp_le; congruence.
    + constructor; [by apply IH|].
      rewrite insert_sorted_perm. constructor; [|done].
      unfold cmp_le. rewrite (cmp_opp P cmp L x y), E. done.
Qed.

(** The result of [sort_by] is in order. *)
Lemma sort_by_sorted l :
  Forall P l -> StronglySorted (cmp_le cmp) (Drizzle.sort_by cmp l).
Proof.
  induction 1 as [|x l Hx Hl IH]; simpl; [constructor|].
  apply insert_sorted_sorted; [done| |done].
  by rewrite sort_by_perm.
Qed.

Lemma insert_sorted_head x l :
  Forall (cmp_le cmp x) l -> Drizzle.insert_sorted cmp x l = x :: l.
Proof.
  destruct 1 as [|y l Hy _]; simpl; [done|].
  unfold cmp_le in Hy. by destruct (cmp x y).
Qed.

Lemma filter_insert_sorted (p : A -> bool) x l :
  P x -> Forall P l -> StronglySorted (cmp_le cmp) l ->
  List.filter p (Drizzle.insert_sorted cmp x l) =
    if p x then Drizzle.insert_sorted cmp x (List.filter p l)
    else List.filter p l.
Proof.
  intros Hx Hl Hs. induction Hs as [|y l Hs IH Hy]; simpl.
  - by destruct (p x).
  - apply Forall_cons in Hl as [Py Hl].
    assert (cmp x y <> Gt ->
            List.filter p (x :: y :: l) =
              if p x then Drizzle.insert_sorted cmp x (List.filter p (y :: l))
              else List.filter p (y :: l)) as Hle.
    { intros Hxy. cbn [List.filter]. destruct (p x); [|done].
      symmetry. apply insert_sorted_head.
      apply (Forall_List_filter _ p (y :: l)). constructor; [done|].
      rewrite Forall_forall in Hy, Hl |- *. intros z Hz.
      apply (cmp_le_trans P cmp x y z); auto. }
    destruct (cmp x y) eqn:E.
    + apply Hle. congruence.
    + apply Hle. congruence.
    + cbn [List.filter]. rewrite IH by done.
      destruct (p y), (p x); simpl; try done. by rewrite E.
Qed.

(** Filtering commutes with sorting: a stable sort of the kept rows is the
    kept part of the sorted rows. *)
Lemma filter_sort_by (p : A -> bool) l :
  Forall P l ->
  List.filter p (Drizzle.sort_by cmp l) = Drizzle.sort_by cmp (List.filter p l).
Proof.
  induction 1 as [|x l Hx Hl IH]; simpl; [done|].
  rewrite filter_insert_sorted; [|done| |by apply sort_by_sorted].
  - rewrite IH. by destruct (p x).
  - by rewrite sort_by_perm.
Qed.

End Sorting.


(** ** Checked inserts *)

Lemma unique_text_snoc c l (r : row) :
  unique_text c l ->
  (forall s u, r !! c = Some (VText s) -> u ∈ l -> u !! c <> Some (VText s)) ->
  unique_text c (l ++ [r]).
Proof.
  unfold unique_text. intros Hl Hr. rewrite omap_app. simpl.
  unfold text_of at 2.
  destruct (r !! c) as [[| s | | | |]|] eqn:E; simpl;
    rewrite ?app_nil_r; try done.
  apply NoDup_app. split; [done|]. split; [|apply NoDup_singleton].
  intros s' Hs' Hin. apply list_elem_of_singleton in Hin as ->.
  apply list_elem_of_omap in Hs' as (u & Hu & Hs').
  unfold text_of in Hs'.
  destruct (u !! c) as [[| s' | | | |]|] eqn:E'; try done.
  injection Hs' as ->. by apply (Hr s u).
Qed.


Lemma filter_fmap {A} (p : A -> bool) (f : A -> A) l :
  (forall x, p (f x) = p x) ->
  List.filter p (map f l) = map f (List.filter p l).
Proof.
  intros H. induction l as [|x l IH]; simpl; [done|].
  rewrite H. destruct (p x); simpl; by rewrite IH.
Qed.

Lemma apply_set_lookup_other t (o r : row) k :
  o !! k = None -> Drizzle.apply_set t o r !! k = r !! k.
Proof.
  intros Ho. unfold Drizzle.apply_set.
  rewrite lookup_union, restrict_lookup, Ho.
  destruct (decide _); by destruct (r !! k).
Qed.

Section SignUp.
Variable bcrypt_hash : string -> nat -> string -> string.

(** X1. [createUser] keeps the emails of the user table pairwise distinct:
    whatever its outcome, no two users share an email afterwards if none did
    before; when it raises the database is unchanged; and it does raise when
    the email of the input is already stored. *)
Theorem createUser_keeps_emails_unique
    (db : Db) (uuid salt : string) (now : Date) (insertUser : row) :
  unique_text "email" (users db) ->
  exists res db',
    createUser bcrypt_hash uuid salt now insertUser db = (res, db') /\
    unique_text "email" (users db') /\
    (forall msg, res = Raised msg -> db' = db) /\
    (forall email u, insertUser !! "email" = Some (VText email) ->
       u ∈ users db -> u !! "email" = Some (VText email) ->
       exists msg, res = Raised msg).
Proof.
  intros Hu. unfold createUser.
  destruct (insertUser !! "password") as [[| pw | | | |]|] eqn:Epw;
    try (do 2 eexists; split; [reflexivity|]; split; [done|];
         split; [done|]; by eauto).
  unfold bind, ret.
  destruct (insert_checked usersT users_constraints _ _ db) as [[rs|msg] db']
    eqn:E.
  - apply insert_checked_Returned in E as (-> & -> & _ & Huniq). simpl.
    do 2 eexists. split; [reflexivity|]. simpl. split; [|split; [done|]].
    + apply unique_text_snoc; [done|]. intros s u Hs Hin Hus.
      pose proof (Huniq "email" (VText s) u ltac:(set_solver) Hs Hin) as Hc.
      apply sql_eq_text in Hus. congruence.
    + intros email u He Hin Hue. exfalso.
      assert (sql_eq (u !! "email") (VText email) = false) as Hc.
      { apply (Huniq "email"); [set_solver| |done].
        apply new_row_lookup_Some; [set_solver|].
        by rewrite lookup_insert_ne. }
      apply sql_eq_text in Hue. congruence.
  - pose proof (insert_checked_Raised _ _ _ _ _ _ _ E) as ->.
    do 2 eexists. split; [reflexivity|]. split; [done|]. split; [done|]. eauto.
Qed.

End SignUp.

Section UserAccounts.
Variable bcrypt_hash : string -> nat -> string -> string.
Variable bcrypt_compare : string -> string -> bool.

(** X2. A user that [createUser] has returned for an input with a text email
    and a text password carries the bcrypt hash of the password, and
    [authenticateUser] with the same email and password returns that user,
    provided bcrypt accepts the password against its own hash. *)
Theorem createUser_then_authenticateUser
    (db db' : Db) (uuid salt : string) (now : Date) (insertUser u : row)
    (email password : string) :
  insertUser !! "email" = Some (VText email) ->
  insertUser !! "password" = Some (VText password) ->
  bcrypt_compare password (bcrypt_hash password 10 salt) = true ->
  createUser bcrypt_hash uuid salt now insertUser db = (Returned (Some u), db') ->
  u !! "password" = Some (VText (bcrypt_hash password 10 salt)) /\
  authenticateUser bcrypt_compare email password db' = (Returned (Some u), db').
Proof.
  intros He Hp Hc Hrun. unfold createUser in Hrun. rewrite Hp in Hrun.
  unfold bind, ret in Hrun.
  destruct (insert_checked usersT users_constraints _ _ db) as [[rs|msg] db1]
    eqn:E; [|done].
  apply insert_checked_Returned in E as (-> & -> & _ & Huniq).
  simpl in Hrun. injection Hrun as <- <-.
  set (r := Drizzle.new_row usersT _ _) in *.
  assert (r !! "email" = Some (VText email)) as Hre.
  { apply new_row_lookup_Some; [set_solver|]. by rewrite lookup_insert_ne. }
  assert (r !! "password" = Some (VText (bcrypt_hash password 10 salt))) as Hrp.
  { apply new_row_lookup_Some; [set_solver|]. by rewrite lookup_insert_eq. }
  split; [done|].
  unfold authenticateUser, getUserByEmail, bind, ret, Drizzle.select. simpl.
  rewrite List.filter_app.
  rewrite (proj2 (filter_nil_iff _ (users db))).
  - simpl. unfold col at 1. rewrite Hre. simpl. rewrite String.eqb_refl. simpl.
    by rewrite Hrp, Hc.
  - intros x Hx. by apply (Huniq "email" (VText email) x ltac:(set_solver)).
Qed.

(** X3. After [updateUserPassword] for the user found under an email,
    [authenticateUser] with that email and the new password returns the user
    with the new hash, provided bcrypt accepts a password against its own
    hash. *)
Theorem updateUserPassword_then_authenticateUser
    (db : Db) (salt userId newPassword email : string) (u : row) :
  getUserByEmail email db = (Returned (Some u), db) ->
  u !! "id" = Some (VText userId) ->
  bcrypt_compare newPassword (bcrypt_hash newPassword 10 salt) = true ->
  exists r db',
    updateUserPassword bcrypt_hash salt userId newPassword db = (Returned r, db') /\
    authenticateUser bcrypt_compare email newPassword db' =
      (Returned (Some (<["password" := VText (bcrypt_hash newPassword 10 salt)]> u)),
       db').
Proof.
  intros Hget Hid Hc. do 2 eexists. split; [reflexivity|].
  unfold getUserByEmail, bind, ret, Drizzle.select in Hget. simpl in Hget.
  injection Hget as Hget.
  unfold authenticateUser, getUserByEmail, bind, ret, Drizzle.select. simpl.
  set (o := {[ "password" := VText (bcrypt_hash newPassword 10 salt) ]} : row).
  assert (forall r, Drizzle.apply_set usersT o r =
                    <["password" := VText (bcrypt_hash newPassword 10 salt)]> r)
    as Hset.
  { intros r. unfold Drizzle.apply_set, o. rewrite restrict_singleton.
    - by rewrite insert_union_singleton_l.
    - simpl. set_solver. }
  rewrite filter_fmap.
  - destruct (List.filter _ (users db)) as [|x l]; simpl in *; [done|].
    injection Hget as ->.
    assert (col "id" (VText userId) u = true) as Hcol by (by apply sql_eq_text).
    rewrite !Hcol, Hset. rewrite lookup_insert_eq. by rewrite Hc.
  - intros r. unfold col at 1 3. destruct (col "id" (VText userId) r); [|done].
    rewrite Hset. by rewrite lookup_insert_ne.
Qed.

End UserAccounts.

Lemma restrict_all cols (o : row) :
  (forall k, is_Some (o !! k) -> k ∈ cols) -> Drizzle.restrict cols o = o.
Proof.
  intros H. apply map_eq. intros k. rewrite restrict_lookup.
  destruct (decide (k ∈ cols)) as [|Hk]; [done|].
  destruct (o !! k) eqn:E; [|done]. destruct Hk. apply H. by rewrite E.
Qed.

Ltac in_list :=
  apply list_elem_of_In; simpl; repeat (first [left; reflexivity | right]).

Ltac not_listed H :=
  repeat (apply elem_of_cons in H as [H|H]; [done|]);
  by apply not_elem_of_nil in H.

Ltac map_lookups :=
  rewrite ?lookup_union, ?lookup_insert, ?lookup_singleton;
  repeat case_decide; subst; try done.

Lemma clear_otp_set (u : row) :
  Drizzle.apply_set usersT
    (<["otpCode" := VNull]>
       (<["otpExpiry" := VNull]> {[ "otpVerified" := VBool false ]})) u
  = otp_cleared u.
Proof.
  unfold Drizzle.apply_set. rewrite restrict_all.
  - apply map_eq. intros k. unfold otp_cleared.
    map_lookups; try (by destruct (u !! k)); by rewrite union_Some_l.
  - intros k [v Hk]. revert Hk. map_lookups; intros; in_list.
Qed.

Lemma otp_cleared_overwrites (o u : row) :
  (forall k, is_Some (o !! k) -> k ∈ ["otpCode"; "otpExpiry"; "otpVerified"]) ->
  otp_cleared (Drizzle.apply_set usersT o u) = otp_cleared u.
Proof.
  intros Ho. apply map_eq. intros k. unfold otp_cleared. map_lookups.
  apply apply_set_lookup_other. destruct (o !! k) eqn:E; [|done].
  assert (k ∈ ["otpCode"; "otpExpiry"; "otpVerified"]) as Hk.
  { apply Ho. by rewrite E. }
  not_listed Hk.
Qed.

(** X4. [clearUserOtp] erases what the OTP steps wrote: after
    [updateUserOtp] and [updateUserOtpVerified], it returns the same row and
    leaves the same database as [clearUserOtp] on the original database; the
    users keyed [userId] have [otpCode] and [otpExpiry] NULL and
    [otpVerified] false, every other column and every other user as
    before. *)
Theorem clearUserOtp_resets_otp_flow
    (db : Db) (userId otpCode : string) (otpExpiry : Date) (verified : bool) :
  exists r1 db1 r2 db2 r3 db3,
    updateUserOtp userId otpCode otpExpiry db = (Returned r1, db1) /\
    updateUserOtpVerified userId verified db1 = (Returned r2, db2) /\
    clearUserOtp userId db2 = (Returned r3, db3) /\
    clearUserOtp userId db = (Returned r3, db3) /\
    users db3 = map (fun u => if col "id" (VText userId) u
                              then otp_cleared u else u) (users db).
Proof.
  do 6 eexists. split; [reflexivity|]. split; [reflexivity|].
  split; [reflexivity|].
  set (o1 := (<["otpCode" := VText otpCode]>
                (<["otpExpiry" := VTime otpExpiry]>
                   {[ "otpVerified" := VBool false ]})) : row).
  set (o2 := {[ "otpVerified" := VBool verified ]} : row).
  assert (forall k, is_Some (o1 !! k) ->
                    k ∈ ["otpCode"; "otpExpiry"; "otpVerified"]) as Ho1.
  { intros k [v Hk]. revert Hk. unfold o1. map_lookups; intros; in_list. }
  assert (forall k, is_Some (o2 !! k) ->
                    k ∈ ["otpCode"; "otpExpiry"; "otpVerified"]) as Ho2.
  { intros k [v Hk]. revert Hk. unfold o2. map_lookups; intros; in_list. }
  assert (forall (o : row) u,
            (forall k, is_Some (o !! k) ->
                       k ∈ ["otpCode"; "otpExpiry"; "otpVerified"]) ->
            col "id" (VText userId) (Drizzle.apply_set usersT o u)
            = col "id" (VText userId) u) as Hid.
  { intros o u Ho. unfold col. rewrite apply_set_lookup_other; [done|].
    destruct (o !! "id") eqn:E; [|done].
    assert ("id" ∈ ["otpCode"; "otpExpiry"; "otpVerified"]) as Hk.
    { apply Ho. by rewrite E. }
    not_listed Hk. }
  set (step := fun (o : row) (r : row) =>
                 if col "id" (VText userId) r
                 then Drizzle.apply_set usersT o r else r).
  assert (forall o u, (forall k, is_Some (o !! k) ->
                         k ∈ ["otpCode"; "otpExpiry"; "otpVerified"]) ->
            col "id" (VText userId) (step o u) = col "id" (VText userId) u)
    as Hstep.
  { intros o u Ho. unfold step.
    destruct (col "id" (VText userId) u) eqn:E; [|done]. by rewrite Hid. }
  assert (forall u, col "id" (VText userId) u = true ->
            otp_cleared (step o2 (step o1 u)) = otp_cleared u) as Hover.
  { intros u E. unfold step. rewrite E, Hid, E by done.
    by rewrite !otp_cleared_overwrites. }
  unfold clearUserOtp, updateUserOtp, updateUserOtpVerified, bind, ret,
    Drizzle.update.
  cbn [rows put usersT users fst snd]. fold o1 o2.
  change (fun r : row => if col "id" (VText userId) r
                         then Drizzle.apply_set usersT o1 r else r)
    with (step o1).
  change (fun r : row => if col "id" (VText userId) r
                         then Drizzle.apply_set usersT o2 r else r)
    with (step o2).
  assert (map (fun r : row => if col "id" (VText userId) r
                  then Drizzle.apply_set usersT
                         (<["otpCode" := VNull]>
                            (<["otpExpiry" := VNull]>
                               {[ "otpVerified" := VBool false ]})) r
                  else r)
              (map (step o2) (map (step o1) (users db)))
          = map (fun u => if col "id" (VText userId) u
                          then otp_cleared u else u) (users db)) as Hmap.
  { rewrite !map_map. apply map_ext. intros u.
    rewrite !Hstep by done.
    destruct (col "id" (VText userId) u) eqn:E.
    - by rewrite clear_otp_set, Hover.
    - unfold step. by rewrite !E. }
  split; [|exact Hmap].
  rewrite Hmap. f_equal; [f_equal; f_equal|f_equal].
  - rewrite !filter_fmap by (intros; by apply Hstep).
    rewrite !map_map. apply map_ext_in. intros u Hu.
    apply filter_In in Hu as [_ E].
    by rewrite !clear_otp_set, Hover.
  - apply map_ext. intros u. destruct (col _ _ u); [|done].
    by rewrite clear_otp_set.
Qed.


(** X5. A product that [createProduct] has returned has [isActive] as given,
    true when the input left it out or gave null; [getProduct] with its key
    then returns it if it is active and absent otherwise. *)
Theorem createProduct_then_getProduct
    (db db' : Db) (uuid id : string) (now : Date) (product p : row) :
  createProduct uuid now product db = (Returned (Some p), db') ->
  p !! "id" = Some (VText id) ->
  p !! "isActive" = Some (js_nullish (product !! "isActive") (VBool true)) /\
  getProduct id db' =
    (Returned (if col "isActive" (VBool true) p then Some p else None), db').
Proof.
  intros Hrun Hid. unfold createProduct, bind, ret in Hrun.
  destruct (insert_checked productsT products_constraints _ _ db)
    as [[rs|msg] db1] eqn:E; [|done].
  apply insert_checked_Returned in E as (-> & -> & _ & Huniq).
  simpl in Hrun. injection Hrun as <- <-.
  set (r := Drizzle.new_row productsT _ _) in *.
  split.
  - apply new_row_lookup_Some; [in_list|]. by rewrite lookup_insert_eq.
  - unfold getProduct, bind, ret, Drizzle.select. simpl.
    rewrite List.filter_app.
    rewrite (proj2 (filter_nil_iff _ (products db))).
    + simpl. unfold col at 1. rewrite Hid. simpl. rewrite String.eqb_refl.
      simpl. by destruct (col "isActive" (VBool true) r).
    + intros x Hx. apply andb_false_iff. left.
      apply (Huniq "id" (VText id) x); [in_list|done|done].
Qed.

(** X6. [deleteProduct] returns true iff a product with the key is stored,
    active or not; called a second time it returns the same (true for a
    stored product, although it is already inactive, false for an unknown
    key) and changes nothing more. *)
Theorem deleteProduct_idempotent (db : Db) (id : string) :
  exists b db',
    deleteProduct id db = (Returned b, db') /\
    (b = true <-> exists p, p ∈ products db /\ p !! "id" = Some (VText id)) /\
    deleteProduct id db' = (Returned b, db').
Proof.
  do 2 eexists. split; [reflexivity|]. split.
  { simpl. rewrite bool_decide_eq_true.
    destruct (List.filter _ (products db)) as [|p l] eqn:E; simpl.
    - split; [by intros []|]. intros (p & Hin & Hid).
      eapply filter_nil_iff in E; [|exact Hin].
      apply sql_eq_text in Hid. unfold col in E. congruence.
    - split; [intros _|by eauto].
      assert (p ∈ p :: l) as Hp by left.
      rewrite <- E in Hp. apply elem_of_filter in Hp as [Hin Hc].
      apply sql_eq_text in Hc. eauto. }
  unfold deleteProduct, bind, ret, Drizzle.update. simpl.
  assert (forall r, col "id" (VText id)
            (if col "id" (VText id) r
             then Drizzle.apply_set productsT {[ "isActive" := VBool false ]} r
             else r) = col "id" (VText id) r) as Hid.
  { intros r. destruct (col "id" (VText id) r) eqn:E; [|done].
    rewrite set_inactive. unfold col in *. by rewrite lookup_insert_ne. }
  f_equal.
  - f_equal. f_equal. rewrite filter_fmap by done.
    destruct (List.filter _ (products db)); done.
  - f_equal. rewrite map_map. apply map_ext. intros r. rewrite Hid.
    destruct (col "id" (VText id) r) eqn:E; [|done].
    rewrite !set_inactive. by rewrite insert_insert_eq.
Qed.

(** X7. [getBillsByDateRange] compares [createdAt] for equality with both
    bounds: with two different bounds it returns no bill at all, and any bill
    it returns was created exactly at the one instant both bounds name. *)
Theorem getBillsByDateRange_needs_equal_bounds
    (db : Db) (startDate endDate : Date) :
  exists l,
    getBillsByDateRange startDate endDate db = (Returned l, db) /\
    (startDate <> endDate -> l = []) /\
    Forall (fun b => b ∈ bills db /\ b !! "createdAt" = Some (VTime startDate)
                     /\ startDate = endDate) l.
Proof.
  eexists. split; [reflexivity|].
  assert (forall b, (col "createdAt" (VTime startDate) b
                     && col "createdAt" (VTime endDate) b) = true ->
                    b !! "createdAt" = Some (VTime startDate)
                    /\ startDate = endDate) as Hboth.
  { intros b H. apply andb_true_iff in H as [H1 H2]. unfold col in *.
    destruct (b !! "createdAt") as [[| | | | d |]|]; try done. simpl in *.
    destruct (JsDate.compare d startDate) eqn:E1; try done.
    destruct (JsDate.compare d endDate) eqn:E2; try done.
    apply date_compare_Eq in E1, E2. by subst. }
  split.
  - intros Hne. simpl. rewrite (proj2 (filter_nil_iff _ (bills db))); [done|].
    intros b _. apply not_true_iff_false. intros H.
    by apply Hboth in H as [_ ?].
  - apply Forall_forall. intros b Hb.
    apply elem_of_orderBy, elem_of_filter in Hb as [Hin Hb].
    apply Hboth in Hb as [? ?]. done.
Qed.


Section EstimateNumbers.
Variable Date_parse : option value -> option Date.
Variable toISOString : Date -> Date.

(** X8. Numbering within a month is an invariant of [createEstimate]: if
    the estimates in the window of [now] carry the numbers 1 to n of that
    month, each once, so they do after a call that returns; no two of them
    share a number, and the number given to the new estimate differs from
    the number of every estimate in the window stored before. *)
Theorem createEstimate_keeps_month_numbered
    (db db' : Db) (uuid : string) (now dbNow : Date) (input e : row) :
  month_numbered toISOString now db ->
  createEstimate Date_parse toISOString uuid now dbNow input db
    = (Returned (Some e), db') ->
  month_numbered toISOString now db' /\
  NoDup (month_numbers toISOString now db') /\
  Forall (fun e0 => inMonthOf toISOString now e0 = true ->
                    e0 !! "quotationNo" <> e !! "quotationNo")
         (estimates db).
Proof.
  intros Hinv Hrun.
  apply createEstimate_Returned in Hrun as (e' & [= <-] & -> & Hq & _ & _).
  assert (forall m, NoDup (numbered now <$> seq 1 m)) as Hnd.
  { intros m. apply NoDup_fmap_2; [|apply NoDup_seq].
    intros a b. apply numbered_inj. }
  assert (month_numbered toISOString now
            (put estimatesT (estimates db ++ [e])%list db)) as Hinv'.
  { unfold month_numbered, month_numbers, monthly_count in *. simpl.
    rewrite List.filter_app, fmap_app, length_app. simpl.
    destruct (inMonthOf toISOString now e); simpl.
    - rewrite seq_app, fmap_app. simpl.
      apply Permutation_app; [exact Hinv|].
      rewrite Hq. unfold monthly_count. by rewrite Nat.add_1_r.
    - by rewrite !app_nil_r, Nat.add_0_r. }
  split; [exact Hinv'|]. split.
  - unfold month_numbered in Hinv'. rewrite Hinv'. apply Hnd.
  - apply Forall_forall. intros e0 He0 Hin.
    assert (e0 !! "quotationNo" ∈ month_numbers toISOString now db) as Hn.
    { unfold month_numbers. apply (list_elem_of_fmap_2 (fun r : row => r !! "quotationNo")).
      by apply elem_of_filter. }
    unfold month_numbered in Hinv. rewrite Hinv in Hn.
    apply list_elem_of_fmap in Hn as (k & -> & Hk).
    apply elem_of_seq in Hk. rewrite Hq. intros H.
    apply numbered_inj in H. lia.
Qed.

End EstimateNumbers.

(** X22. With the application and the store both in Asia/Kolkata, an
    estimate written on the last evening of the month is stamped after the
    end of the window that is sent (the local end of the month, read in
    UTC), so the next estimate of that evening gets the same number. *)
Theorem createEstimate_repeats_number_in_kolkata :
  exists e1 db1 e2 db2,
    createEstimate toy_parse (zone_toISOString kolkata) "e-1" march_31_evening
      march_31_evening ring_quote shop = (Returned (Some e1), db1) /\
    createEstimate toy_parse (zone_toISOString kolkata) "e-2" march_31_night
      march_31_night ring_quote db1 = (Returned (Some e2), db2) /\
    e1 !! "createdAt" = Some (VTime march_31_evening) /\
    zone_toISOString kolkata (endOfMonth march_31_night)
      = JsDate.mkDate 2025 2 31 66599999 /\
    e1 !! "quotationNo" = Some (VText "PJ-QTN-2025-03-001") /\
    e2 !! "quotationNo" = Some (VText "PJ-QTN-2025-03-001").
Proof.
  pose (e1 := Drizzle.new_row estimatesT
                (estimates_defaults "e-1" march_31_evening)
                (<["validUntil" := VTime (JsDate.mkDate 2025 3 10 0)]>
                   (<["quotationNo" := VText "PJ-QTN-2025-03-001"]> ring_quote))).
  pose (db1 := put estimatesT (estimates shop ++ [e1])%list shop).
  pose (e2 := Drizzle.new_row estimatesT
                (estimates_defaults "e-2" march_31_night)
                (<["validUntil" := VTime (JsDate.mkDate 2025 3 10 0)]>
                   (<["quotationNo" := VText "PJ-QTN-2025-03-001"]> ring_quote))).
  exists e1, db1, e2, (put estimatesT (estimates db1 ++ [e2])%list db1).
  split; [reflexivity|]. split; [reflexivity|]. split; [reflexivity|].
  split; [reflexivity|]. split; reflexivity.
Qed.


Lemma category_order_lawful :
  lawful_cmp (well_kinded category_order_kinds)
    (Drizzle.cmp_keys [Drizzle.asc "displayOrder"; Drizzle.asc "name"]).
Proof.
  apply cmp_keys_lawful. repeat constructor.
  - exists KInt. in_list.
  - exists KText. in_list.
Qed.

Lemma created_order_lawful :
  lawful_cmp (well_kinded created_kinds)
    (Drizzle.cmp_keys [Drizzle.desc "createdAt"]).
Proof.
  apply cmp_keys_lawful. repeat constructor. exists KTime. in_list.
Qed.

Lemma section_order_lawful :
  lawful_cmp (well_kinded section_order_kinds)
    (Drizzle.cmp_keys [Drizzle.asc "displayOrder"; Drizzle.asc "createdAt"]).
Proof.
  apply cmp_keys_lawful. repeat constructor.
  - exists KInt. in_list.
  - exists KTime. in_list.
Qed.

Lemma filter_orderBy cs ks (p : row -> bool) l :
  lawful_cmp (well_kinded cs) (Drizzle.cmp_keys ks) ->
  Forall (well_kinded cs) l ->
  List.filter p (Drizzle.orderBy ks l) = Drizzle.orderBy ks (List.filter p l).
Proof. intros L Hl. unfold Drizzle.orderBy. by eapply filter_sort_by. Qed.

Lemma strict_eq_sql_eq o s : strict_eq o (Some (VText s)) = sql_eq o (VText s).
Proof. by destruct o as [[]|]. Qed.

(** X9. With [parentId] NULL or a non-empty text in every category (and the
    ordering columns of their kinds), the root entries of
    [getCategoriesHierarchy] are the rows of [getMainCategories], in the same
    order. *)
Theorem hierarchy_roots_are_main_categories (db : Db) :
  Forall (well_kinded category_order_kinds) (categories db) ->
  Forall parent_ok (categories db) ->
  exists h,
    getCategoriesHierarchy db = (Returned h, db) /\
    getMainCategories db = (Returned (category <$> h), db).
Proof.
  intros Hk Hp. eexists. split; [reflexivity|].
  unfold getMainCategories, bind, ret, Drizzle.select. simpl.
  rewrite List.filter_true, <- list_fmap_compose. simpl. rewrite list_fmap_id.
  rewrite (filter_orderBy category_order_kinds)
    by (done || apply category_order_lawful).
  f_equal. f_equal. f_equal. apply List.filter_ext_in. intros c Hc.
  rewrite Forall_forall in Hp. apply list_elem_of_In in Hc.
  specialize (Hp c Hc). unfold parent_ok, col_is_null in *.
  destruct (c !! "parentId") as [[| s | | | |]|]; simpl; try done.
  destruct (String.eqb s "") eqn:E; [|done]. by apply String.eqb_eq in E.
Qed.

(** X10. With [displayOrder] a number and [name] a text (or NULL) in every
    category, the children of an entry of [getCategoriesHierarchy] keyed [id]
    are the rows of [getSubCategories id], in the same order. *)
Theorem hierarchy_children_are_sub_categories (db : Db) :
  Forall (well_kinded category_order_kinds) (categories db) ->
  exists h,
    getCategoriesHierarchy db = (Returned h, db) /\
    Forall (fun e => forall id, category e !! "id" = Some (VText id) ->
                       getSubCategories id db = (Returned (children e), db)) h.
Proof.
  intros Hk. eexists. split; [reflexivity|].
  apply Forall_forall. intros e He.
  apply list_elem_of_fmap in He as (m & -> & _). simpl. intros id Hid.
  unfold getSubCategories, bind, ret, Drizzle.select. simpl.
  rewrite List.filter_true, Hid.
  rewrite (filter_orderBy category_order_kinds)
    by (done || apply category_order_lawful).
  rewrite (List.filter_ext (col "parentId" (VText id))
             (fun cat : row => strict_eq (cat !! "parentId") (Some (VText id))));
    [done|].
  intros c. symmetry. apply strict_eq_sql_eq.
Qed.

Lemma filter_andb {A} (p q : A -> bool) l :
  List.filter (fun x => p x && q x) l = List.filter p (List.filter q l).
Proof.
  induction l as [|x l IH]; simpl; [done|].
  destruct (q x) eqn:Eq; simpl.
  - rewrite andb_true_r. destruct (p x); by rewrite IH.
  - by rewrite andb_false_r.
Qed.

(** X11. With [createdAt] a time or NULL in every product,
    [getProductsByCategory cat] is [getAllProducts] restricted to the
    products whose [category] is [cat], the order kept. *)
Theorem getProductsByCategory_filters_getAllProducts (db : Db) (cat : string) :
  Forall (well_kinded created_kinds) (products db) ->
  exists all,
    getAllProducts db = (Returned all, db) /\
    getProductsByCategory cat db =
      (Returned (List.filter (col "category" (VText cat)) all), db).
Proof.
  intros Hk. eexists. split; [reflexivity|].
  unfold getProductsByCategory, bind, ret, Drizzle.select. simpl.
  rewrite (filter_orderBy created_kinds)
    by (apply created_order_lawful || by apply Forall_List_filter).
  by rewrite filter_andb.
Qed.


Lemma StronglySorted_weaken {A} (R S : A -> A -> Prop) l :
  (forall a b, a ∈ l -> b ∈ l -> R a b -> S a b) ->
  StronglySorted R l -> StronglySorted S l.
Proof.
  intros H Hs. induction Hs as [|x l Hs IH Hx]; constructor.
  - apply IH. intros a b Ha Hb. apply H; by right.
  - rewrite Forall_forall in Hx |- *. intros y Hy.
    apply H; [left|by right|by apply Hx].
Qed.

(** X12. With [createdAt] a time or NULL in every product, [getAllProducts]
    returns exactly the active products (each as often as the table holds
    it), the newest first: of two returned products with a creation time, the
    one listed first is not the older. *)
Theorem getAllProducts_newest_first (db : Db) :
  Forall (well_kinded created_kinds) (products db) ->
  exists l,
    getAllProducts db = (Returned l, db) /\
    Permutation l (List.filter (col "isActive" (VBool true)) (products db)) /\
    StronglySorted newest_first l.
Proof.
  intros Hk. eexists. split; [reflexivity|]. split.
  - unfold Drizzle.orderBy. apply sort_by_perm.
  - eapply StronglySorted_weaken;
      [|apply (sort_by_sorted _ _ created_order_lawful);
        by apply Forall_List_filter].
    intros a b _ _ Hle da db' Ha Hb. unfold cmp_le in Hle. simpl in Hle.
    rewrite Ha, Hb in Hle. simpl in Hle. apply leb_le. unfold JsDate.leb.
    rewrite date_compare_opp. by destruct (JsDate.compare da db').
Qed.


Lemma filter_none {A} (p : A -> bool) l :
  (forall x, x ∈ l -> p x = false) ->
  List.filter (fun x => negb (p x)) l = l.
Proof.
  intros H. induction l as [|x l IH]; simpl; [done|].
  rewrite (H x) by left. simpl. f_equal. apply IH. intros y Hy. apply H. by right.
Qed.

(** The steps of [deleteCategory], condition by condition. *)
Lemma deleteCategory_steps id db :
  deleteCategory id db =
    if (0 <? List.length
               (Drizzle.orderBy [Drizzle.asc "displayOrder"; Drizzle.asc "name"]
                  (List.filter (col "parentId" (VText id)) (categories db))))%nat
    then (Returned false, db)
    else
      let slug :=
        js_or (match head (List.filter (col "id" (VText id)) (categories db)) with
               | Some c => c !! "slug"
               | None => None
               end) (VText "") in
      if (0 <? List.length (List.filter (col "category" slug) (products db)))%nat
      then (Returned false, db)
      else
        (Returned (0 <? List.length
                          (List.filter (col "id" (VText id)) (categories db)))%nat,
         put categoriesT
           (List.filter (fun r => negb (col "id" (VText id) r)) (categories db))
           db).
Proof.
  unfold deleteCategory, getSubCategories, getCategory, bind, ret,
    Drizzle.select, Drizzle.delete. simpl.
  destruct (0 <? _)%nat; [done|]. simpl.
  by destruct (0 <? List.length (List.filter (col "category" _) _))%nat.
Qed.

(** X13. [deleteCategory] with a key no category carries returns false and
    changes nothing. *)
Theorem deleteCategory_missing (db : Db) (id : string) :
  absent_from categoriesT id db ->
  deleteCategory id db = (Returned false, db).
Proof.
  intros Habs. rewrite deleteCategory_steps.
  assert (forall r, r ∈ categories db -> col "id" (VText id) r = false) as Hno.
  { intros r Hr. unfold absent_from in Habs. rewrite Forall_forall in Habs.
    destruct (col "id" (VText id) r) eqn:E; [|done].
    apply sql_eq_text in E. by destruct (Habs r Hr). }
  destruct (0 <? _)%nat; [done|].
  rewrite (proj2 (filter_nil_iff _ (categories db)) Hno). simpl.
  destruct (0 <? _)%nat; [done|].
  rewrite filter_none by done. by destruct db.
Qed.

(** X14. A category that [createCategory] has returned is the one
    [getCategory] finds under its key and [getCategoryBySlug] under its slug;
    and unless a child or a product refers to it, [deleteCategory] with its
    key returns true and restores the database from before the creation. *)
Theorem createCategory_round_trip
    (db db' : Db) (uuid id slug : string) (now : Date) (category c : row) :
  createCategory uuid now category db = (Returned (Some c), db') ->
  c !! "id" = Some (VText id) ->
  c !! "slug" = Some (VText slug) ->
  getCategory id db' = (Returned (Some c), db') /\
  getCategoryBySlug slug db' = (Returned (Some c), db') /\
  (¬ has_child id db' -> ¬ referenced slug db' ->
   deleteCategory id db' = (Returned true, db)).
Proof.
  intros Hrun Hid Hslug. unfold createCategory, bind, ret in Hrun.
  destruct (insert_checked categoriesT categories_constraints _ _ db)
    as [[rs|msg] db1] eqn:E; [|done].
  apply insert_checked_Returned in E as (-> & -> & _ & Huniq).
  simpl in Hrun. injection Hrun as <- <-.
  set (r := Drizzle.new_row categoriesT _ _) in *.
  assert (List.filter (col "id" (VText id)) (categories db ++ [r]) = [r]) as Hsel.
  { rewrite List.filter_app, (proj2 (filter_nil_iff _ (categories db))).
    - simpl. unfold col. rewrite Hid. simpl. by rewrite String.eqb_refl.
    - intros x Hx. apply (Huniq "id" (VText id) x); [in_list|done|done]. }
  split; [|split].
  - unfold getCategory, bind, ret, Drizzle.select. simpl. by rewrite Hsel.
  - unfold getCategoryBySlug, bind, ret, Drizzle.select. simpl.
    rewrite List.filter_app, (proj2 (filter_nil_iff _ (categories db))).
    + simpl. unfold col. rewrite Hslug. simpl. by rewrite String.eqb_refl.
    + intros x Hx. apply (Huniq "slug" (VText slug) x); [in_list|done|done].
  - intros Hch Hre. rewrite deleteCategory_steps.
    pose proof (has_child_iff [Drizzle.asc "displayOrder"; Drizzle.asc "name"]
                  id (put categoriesT (categories db ++ [r])%list db)) as Hc.
    destruct (0 <? List.length (Drizzle.orderBy _ _))%nat.
    { destruct Hch. by apply Hc. }
    cbn zeta. cbn [rows put categoriesT categories products].
    rewrite Hsel. cbn [head]. rewrite Hslug, js_or_text.
    pose proof (referenced_iff slug
                  (put categoriesT (categories db ++ [r])%list db)) as Hr.
    cbn [rows put categoriesT categories products] in Hr.
    destruct (0 <? List.length (List.filter (col "category" _) _))%nat.
    { destruct Hre. by apply Hr. }
    f_equal. rewrite List.filter_app. simpl.
    assert (col "id" (VText id) r = true) as -> by (by apply sql_eq_text).
    simpl. rewrite app_nil_r, filter_none; [by destruct db|].
    intros x Hx. apply (Huniq "id" (VText id) x); [in_list|done|done].
Qed.

(** ** Reordering *)

Lemma index_of_None s ids : s ∉ ids -> index_of s ids = None.
Proof.
  induction ids as [|id rest IH]; simpl; [done|]. intros Hn.
  apply not_elem_of_cons in Hn as [Hne Hn].
  destruct (String.eqb id s) eqn:E; [by apply String.eqb_eq in E|].
  by rewrite IH.
Qed.

Lemma index_of_lookup s ids j :
  NoDup ids -> ids !! j = Some s -> index_of s ids = Some j.
Proof.
  intros Hnd. revert j. induction Hnd as [|id rest Hid Hnd IH]; intros j Hj.
  - done.
  - destruct j as [|j]; simpl in *.
    + injection Hj as ->. by rewrite String.eqb_refl.
    + destruct (String.eqb id s) eqn:E.
      * apply String.eqb_eq in E. subst. destruct Hid.
        by eapply list_elem_of_lookup_2.
      * by rewrite (IH j).
Qed.

Lemma reorder_set clock i (c : row) :
  Drizzle.apply_set categoriesT
    (<["displayOrder" := VInt (Z.of_nat i)]> {[ "updatedAt" := VTime (clock i) ]}) c
  = <["displayOrder" := VInt (Z.of_nat i)]> (<["updatedAt" := VTime (clock i)]> c).
Proof.
  unfold Drizzle.apply_set. rewrite restrict_all.
  - apply map_eq. intros k.
    map_lookups; try (by destruct (c !! k)); by rewrite union_Some_l.
  - intros k [v Hk]. revert Hk. map_lookups; intros; in_list.
Qed.

Lemma reorder_from_run clock ids : forall i db,
  NoDup ids ->
  reorder_from clock i ids db =
    (Returned tt,
     put categoriesT (map (reordered clock i ids) (categories db)) db).
Proof.
  induction ids as [|id rest IH]; intros i db Hnd.
  - simpl. unfold ret. f_equal. destruct db as [us ps bs es cs hs his]; simpl.
    f_equal. rewrite <- (map_id cs) at 1. apply map_ext. intros c.
    unfold reordered. by destruct (c !! "id") as [[]|].
  - apply NoDup_cons in Hnd as [Hid Hnd].
    cbn [reorder_from]. unfold bind, Drizzle.update.
    cbn [rows put categoriesT categories]. rewrite IH by done.
    f_equal. destruct db; simpl. f_equal. rewrite map_map.
    apply map_ext. intros c. unfold reordered at 2. simpl.
    destruct (col "id" (VText id) c) eqn:E.
    + apply sql_eq_text in E. rewrite E, String.eqb_refl.
      rewrite reorder_set. unfold reordered.
      rewrite lookup_insert_ne, lookup_insert_ne, E by done.
      rewrite index_of_None by done. by rewrite Nat.add_0_r.
    + unfold reordered.
      destruct (c !! "id") as [[| s | | | |]|] eqn:Ec; try done.
      assert (String.eqb id s = false) as ->.
      { unfold col in E. rewrite Ec in E. simpl in E.
        by rewrite String.eqb_sym. }
      destruct (index_of s rest); [|done].
      by replace (S i + n)%nat with (i + S n)%nat by lia.
Qed.

(** X15. [reorderCategories] on keys without repetition returns true and
    gives the category keyed by the [i]-th key [displayOrder = i] (and the
    time of that round as [updatedAt]); categories not named, and all other
    columns, are untouched. *)
Theorem reorderCategories_positions
    (db : Db) (clock : nat -> Date) (categoryIds : list string) :
  NoDup categoryIds ->
  exists db',
    reorderCategories clock categoryIds db = (Returned true, db') /\
    db' = put categoriesT (map (reordered clock 0 categoryIds) (categories db)) db /\
    (forall i id c, categoryIds !! i = Some id -> c ∈ categories db' ->
       c !! "id" = Some (VText id) ->
       c !! "displayOrder" = Some (VInt (Z.of_nat i))).
Proof.
  intros Hnd. eexists. unfold reorderCategories.
  rewrite reorder_from_run by done. split; [reflexivity|]. split; [done|].
  intros i id c Hi Hc Hid. simpl in Hc.
  apply list_elem_of_fmap in Hc as (c0 & -> & _).
  unfold reordered in *.
  destruct (c0 !! "id") as [[| s | | | |]|] eqn:E0;
    try (rewrite E0 in Hid; done).
  destruct (index_of s categoryIds) as [j|] eqn:Ej.
  - rewrite !lookup_insert_ne, E0 in Hid by done. injection Hid as ->.
    rewrite (index_of_lookup id categoryIds i) in Ej by done.
    injection Ej as <-. by rewrite lookup_insert_eq.
  - rewrite E0 in Hid. injection Hid as ->.
    rewrite (index_of_lookup id categoryIds i) in Ej by done. done.
Qed.


Lemma getHomeSectionItemsOf_run v db :
  getHomeSectionItemsOf v db = (Returned (section_items v db), db).
Proof. reflexivity. Qed.

Lemma getHomeSectionItems_run id db :
  getHomeSectionItems id db = (Returned (section_items (VText id) db), db).
Proof. reflexivity. Qed.

Lemma with_items_run l db :
  with_items l db =
    (Returned (map (fun s => mkHomeSectionWithItems s
                               (section_items (default VNull (s !! "id")) db)) l),
     db).
Proof.
  induction l as [|s l IH]; [done|].
  cbn [with_items]. unfold bind. rewrite getHomeSectionItemsOf_run, IH. done.
Qed.

Lemma filter_map_comm {A B} (p : B -> bool) (f : A -> B) l :
  List.filter p (map f l) = map f (List.filter (fun x => p (f x)) l).
Proof.
  induction l as [|x l IH]; simpl; [done|].
  destruct (p (f x)); simpl; by rewrite IH.
Qed.

(** X16. With [displayOrder] a number and [createdAt] a time (or NULL) in
    every section, [getAllHomeSections] is [getAllHomeSectionsForAdmin]
    restricted to the sections with [isActive] true, the order and the items
    of each section kept. *)
Theorem getAllHomeSections_filters_admin_listing (db : Db) :
  Forall (well_kinded section_order_kinds) (homeSections db) ->
  exists admin,
    getAllHomeSectionsForAdmin db = (Returned admin, db) /\
    getAllHomeSections db =
      (Returned (List.filter (fun e => col "isActive" (VBool true) (section e))
                   admin), db).
Proof.
  intros Hk. eexists.
  unfold getAllHomeSectionsForAdmin, getAllHomeSections, bind, Drizzle.select.
  rewrite !with_items_run. split; [reflexivity|].
  rewrite filter_map_comm. simpl. rewrite List.filter_true.
  by rewrite (filter_orderBy section_order_kinds)
    by (done || apply section_order_lawful).
Qed.

(** The join of a table with rows removed. *)
Lemma innerJoin_items db (its : list row) :
  Drizzle.innerJoin homeSectionItemsT productsT (Drizzle.on_eq "productId" "id")
    (put homeSectionItemsT its db)
  = flat_map (fun x => map (fun y => (x, y))
                         (List.filter (Drizzle.on_eq "productId" "id" x)
                            (products db))) its.
Proof. by destruct db. Qed.

Lemma section_items_of_items v db (its : list row) :
  section_items v (put homeSectionItemsT its db) =
    map (fun ip => mkHomeSectionItemWithProduct ip.1 ip.2)
      (Drizzle.sort_by
         (fun a b => Drizzle.cmp_keys [Drizzle.asc "position"] a.1 b.1)
         (List.filter (fun ip : row * row => col "sectionId" v ip.1)
            (flat_map (fun x => map (fun y => (x, y))
                         (List.filter (Drizzle.on_eq "productId" "id" x)
                            (products db))) its))).
Proof. unfold section_items, getHomeSectionItemsOf. by rewrite innerJoin_items. Qed.

Lemma put_items_same db : put homeSectionItemsT (homeSectionItems db) db = db.
Proof. by destruct db. Qed.

Lemma filter_flat_map_fst (q : row -> bool) (f : row -> list row) its :
  List.filter (fun ip : row * row => q ip.1)
    (flat_map (fun x => map (fun y => (x, y)) (f x)) its)
  = flat_map (fun x => map (fun y => (x, y)) (f x)) (List.filter q its).
Proof.
  induction its as [|x its IH]; simpl; [done|].
  rewrite List.filter_app, IH.
  assert (List.filter (fun ip : row * row => q ip.1) (map (fun y => (x, y)) (f x))
          = if q x then map (fun y => (x, y)) (f x) else []) as ->.
  { induction (f x) as [|y l IHl]; simpl; [by destruct (q x)|].
    rewrite IHl. by destruct (q x). }
  by destruct (q x).
Qed.

(** X17. [deleteHomeSection id] removes the items with [sectionId = id] and
    the sections keyed [id], and changes nothing else in the database; it
    returns true iff such a section existed (the items go even when none
    did); afterwards [getHomeSection id] is absent and
    [getHomeSectionItems id] is empty. *)
Theorem deleteHomeSection_cascades (db : Db) (id : string) :
  exists b db',
    deleteHomeSection id db = (Returned b, db') /\
    (b = true <-> exists s, s ∈ homeSections db /\ s !! "id" = Some (VText id)) /\
    db' =
      put homeSectionsT
        (List.filter (fun s => negb (col "id" (VText id) s)) (homeSections db))
        (put homeSectionItemsT
           (List.filter (fun i => negb (col "sectionId" (VText id) i))
              (homeSectionItems db))
           db) /\
    homeSections db' =
      List.filter (fun s => negb (col "id" (VText id) s)) (homeSections db) /\
    homeSectionItems db' =
      List.filter (fun i => negb (col "sectionId" (VText id) i))
        (homeSectionItems db) /\
    getHomeSection id db' = (Returned None, db') /\
    getHomeSectionItems id db' = (Returned [], db').
Proof.
  do 2 eexists. split; [reflexivity|]. simpl.
  split; [|split; [done|split; [done|split; [done|]]]].
  - rewrite filter_length_pos. unfold col. by setoid_rewrite sql_eq_text.
  - split.
    + unfold getHomeSection, bind, ret, Drizzle.select. simpl.
      rewrite (proj2 (filter_nil_iff _ _)); [done|].
      intros s Hs. apply elem_of_filter in Hs as [_ Hs].
      by apply negb_true_iff in Hs.
    + unfold getHomeSectionItems. simpl. f_equal. f_equal.
      unfold Drizzle.innerJoin. simpl.
      rewrite filter_flat_map_fst.
      rewrite (proj2 (filter_nil_iff _ _)); [done|].
      intros s Hs. apply elem_of_filter in Hs as [_ Hs].
      by apply negb_true_iff in Hs.
Qed.

(** X18. [addHomeSectionItem] does not check the product: an item whose
    [productId] no product carries is stored, and every section goes on
    showing exactly the items it showed before. *)
Theorem addHomeSectionItem_without_product
    (db db' : Db) (uuid pid : string) (now : Date) (itemData it : row) :
  addHomeSectionItem uuid now itemData db = (Returned (Some it), db') ->
  it !! "productId" = Some (VText pid) ->
  absent_from productsT pid db ->
  it ∈ homeSectionItems db' /\
  forall sectionId,
    getHomeSectionItems sectionId db' =
      (Returned (section_items (VText sectionId) db), db').
Proof.
  intros Hrun Hpid Habs. unfold addHomeSectionItem, bind, ret in Hrun.
  destruct (insert_checked homeSectionItemsT homeSectionItems_constraints _ _ db)
    as [[rs|msg] db1] eqn:E; [|done].
  apply insert_checked_Returned in E as (-> & -> & _ & _).
  cbv beta iota in Hrun. injection Hrun as Hit <-. simpl in Hit. subst it.
  set (r := Drizzle.new_row homeSectionItemsT _ _) in *.
  split.
  - simpl. apply elem_of_app. right. left.
  - intros sid. rewrite getHomeSectionItems_run. f_equal. f_equal.
    etrans;
      [exact (section_items_of_items (VText sid) db
                (homeSectionItems db ++ [r])%list)|].
    etrans;
      [|symmetry;
        exact (section_items_of_items (VText sid) db (homeSectionItems db))].
    do 3 f_equal. rewrite flat_map_app. simpl.
    rewrite (proj2 (filter_nil_iff _ (products db))); [by rewrite !app_nil_r|].
    intros p Hp. unfold Drizzle.on_eq.
    destruct (p !! "id") as [v|] eqn:Ep; [|done].
    rewrite Hpid. destruct v; try done. simpl.
    apply String.eqb_neq. intros ->.
    unfold absent_from in Habs. rewrite Forall_forall in Habs.
    by apply (Habs p Hp).
Qed.


Lemma item_order_lawful :
  lawful_cmp (fun ip : row * row => well_kinded item_order_kinds ip.1)
    (fun a b => Drizzle.cmp_keys [Drizzle.asc "position"] a.1 b.1).
Proof.
  apply (lawful_on fst (well_kinded item_order_kinds)
           (Drizzle.cmp_keys [Drizzle.asc "position"])).
  apply cmp_keys_lawful. repeat constructor. exists KInt. in_list.
Qed.

Lemma filter_swap {A} (p q : A -> bool) l :
  List.filter p (List.filter q l) = List.filter q (List.filter p l).
Proof.
  rewrite <- !filter_andb. apply List.filter_ext. intros x. apply andb_comm.
Qed.

(** X19. With [position] a number or NULL in every item,
    [deleteHomeSectionItem] returns true iff an item with the key existed,
    and afterwards every section shows what it showed before minus the items
    with that key, in the same order. *)
Theorem deleteHomeSectionItem_removes_everywhere (db : Db) (itemId : string) :
  Forall (well_kinded item_order_kinds) (homeSectionItems db) ->
  exists b db',
    deleteHomeSectionItem itemId db = (Returned b, db') /\
    (b = true <->
     exists i, i ∈ homeSectionItems db /\ i !! "id" = Some (VText itemId)) /\
    forall sectionId,
      getHomeSectionItems sectionId db' =
        (Returned
           (List.filter (fun e => negb (col "id" (VText itemId) (item e)))
              (section_items (VText sectionId) db)), db').
Proof.
  intros Hk. do 2 eexists. split; [reflexivity|]. split.
  - simpl. rewrite filter_length_pos. unfold col. by setoid_rewrite sql_eq_text.
  - intros sid. rewrite getHomeSectionItems_run. f_equal. f_equal.
    etrans; [exact (section_items_of_items (VText sid) db _)|].
    etrans;
      [|symmetry; apply f_equal;
        exact (section_items_of_items (VText sid) db (homeSectionItems db))].
    rewrite (filter_map_comm _ (fun ip : row * row =>
               mkHomeSectionItemWithProduct ip.1 ip.2)). simpl.
    f_equal.
    rewrite (filter_sort_by _ _ item_order_lawful).
    + f_equal. rewrite <- filter_flat_map_fst.
      apply (filter_swap (fun ip : row * row => col "sectionId" (VText sid) ip.1)).
    + apply Forall_List_filter. apply Forall_forall. intros [i p] Hip. simpl.
      apply list_elem_of_In, in_flat_map in Hip as (x & Hx & Hxy).
      apply in_map_iff in Hxy as (y & [= <- <-] & _).
      rewrite Forall_forall in Hk. apply Hk. by apply list_elem_of_In.
Qed.

(** ** The estimates list *)

Lemma prefix_spec (q s : string) :
  String.prefix q s = true <-> exists b, s = q +:+ b.
Proof.
  revert s. induction q as [|c q IH]; intros s.
  - split; [by exists s|intros _; by destruct s].
  - destruct s as [|d s]; [split; [done|by intros [b [=]]]|].
    cbn [String.prefix]. destruct (Ascii.ascii_dec c d) as [->|Hne].
    + rewrite IH. split; intros [b Hb]; exists b.
      * change (String d s = String d (q +:+ b)). by rewrite Hb.
      * by injection Hb.
    + split; [done|]. intros [b [= ? ?]]. done.
Qed.

(** [includes] is the substring test. *)
Lemma includes_spec (s q : string) :
  includes s q = true <-> exists a b, s = a +:+ q +:+ b.
Proof.
  induction s as [|c s IH].
  - cbn [includes]. rewrite orb_false_r, prefix_spec. split.
    + intros [b Hb]. by exists "", b.
    + intros (a & b & H). destruct a as [|? a]; [by exists b|done].
  - cbn [includes]. rewrite orb_true_iff, prefix_spec, IH. split.
    + intros [[b Hb]|(a & b & Hab)].
      * by exists "", b.
      * exists (String c a), b. simpl. by rewrite Hab.
    + intros ([|d a] & b & H).
      * left. by exists b.
      * right. injection H as -> H. by exists a, b.
Qed.

Lemma sublist_List_filter {A} (p : A -> bool) l : sublist (List.filter p l) l.
Proof.
  induction l as [|x l IH]; simpl; [done|].
  destruct (p x); by constructor.
Qed.

Section EstimatesListFacts.
Variable toLowerCase : string -> string.

(** X20. The estimates list shows a sub-list of the loaded estimates, in
    their order (so nothing while they have not loaded): all of them when the
    search box is empty, and always those whose phone number contains the
    query as typed.  [toLowerCase] is only assumed to keep the empty string
    empty. *)
Theorem filteredEstimates_search
    (estimates : option (list EstimateCard)) (searchQuery : string) :
  toLowerCase "" = "" ->
  sublist (filteredEstimates toLowerCase estimates searchQuery)
          (default [] estimates) /\
  filteredEstimates toLowerCase estimates "" = default [] estimates /\
  Forall (fun e =>
            (exists a b, card_customerPhone e = a +:+ searchQuery +:+ b) ->
            e ∈ filteredEstimates toLowerCase estimates searchQuery)
         (default [] estimates).
Proof.
  intros Hlow. destruct estimates as [l|]; simpl; [|done].
  split; [apply sublist_List_filter|]. split.
  - rewrite <- (List.filter_true l) at 2. apply List.filter_ext. intros e.
    unfold card_matches. rewrite Hlow.
    by destruct (toLowerCase (card_customerName e)).
  - apply Forall_forall. intros e He Hphone. apply elem_of_filter.
    split; [done|]. unfold card_matches.
    apply includes_spec in Hphone. rewrite Hphone.
    by rewrite orb_true_r.
Qed.

End EstimatesListFacts.


Lemma index_of_Some s ids j :
  index_of s ids = Some j -> ids !! j = Some s.
Proof.
  revert j. induction ids as [|id rest IH]; intros j; simpl; [done|].
  destruct (String.eqb id s) eqn:E.
  - intros [= <-]. apply String.eqb_eq in E. by subst.
  - destruct (index_of s rest) as [k|]; [|done]. intros [= <-]. by apply IH.
Qed.

Lemma index_of_elem s ids :
  s ∈ ids -> exists j, index_of s ids = Some j.
Proof.
  induction ids as [|id rest IH]; simpl.
  - intros H. by apply not_elem_of_nil in H.
  - intros H. destruct (String.eqb id s) eqn:E; [eauto|].
    apply elem_of_cons in H as [->|H]; [by rewrite String.eqb_refl in E|].
    destruct (IH H) as [j ->]. eauto.
Qed.


Lemma stands_before_sorted ids :
  NoDup ids -> StronglySorted (stands_before ids) ids.
Proof.
  intros Hnd.
  assert (forall pre suf, ids = (pre ++ suf)%list ->
            StronglySorted (stands_before ids) suf) as H;
    [|by apply (H [])].
  intros pre suf. revert pre. induction suf as [|x suf IH]; intros pre E.
  - constructor.
  - constructor.
    + apply (IH (pre ++ [x])%list). by rewrite <- app_assoc.
    + apply Forall_forall. intros t Ht i j Hi Hj.
      apply list_elem_of_lookup in Ht as [k Hk].
      assert (ids !! (length pre) = Some x) as Hx.
      { rewrite E. by rewrite list_lookup_middle. }
      assert (ids !! (length pre + S k)%nat = Some t) as Ht.
      { rewrite E. rewrite lookup_app_r by lia.
        replace (length pre + S k - length pre)%nat with (S k) by lia. done. }
      rewrite (NoDup_lookup ids i (length pre) x Hnd Hi Hx).
      rewrite (NoDup_lookup ids j (length pre + S k)%nat t Hnd Hj Ht). lia.
Qed.

Lemma reordered_id clock i ids c : reordered clock i ids c !! "id" = c !! "id".
Proof.
  unfold reordered. destruct (c !! "id") as [[| s | | | |]|] eqn:E; try done.
  destruct (index_of s ids); [|done]. by rewrite !lookup_insert_ne.
Qed.

Lemma reordered_name clock i ids c :
  reordered clock i ids c !! "name" = c !! "name".
Proof.
  unfold reordered. destruct (c !! "id") as [[| s | | | |]|] eqn:E; try done.
  destruct (index_of s ids); [|done]. by rewrite !lookup_insert_ne.
Qed.

Lemma reordered_listed clock ids c s :
  c !! "id" = Some (VText s) -> s ∈ ids ->
  exists j, ids !! j = Some s /\
    reordered clock 0 ids c !! "displayOrder" = Some (VInt (Z.of_nat j)).
Proof.
  intros Hc Hs. destruct (index_of_elem s ids Hs) as [j Hj].
  exists j. split; [by apply index_of_Some|].
  unfold reordered. rewrite Hc, Hj. by rewrite lookup_insert_eq.
Qed.


(** X21. When [reorderCategories] is given the keys of all categories, each
    once, and every category name is a text or NULL, [getAllCategories]
    afterwards lists the categories in exactly that order. *)
Theorem reorderCategories_then_getAllCategories
    (db : Db) (clock : nat -> Date) (categoryIds : list string) :
  NoDup categoryIds ->
  Permutation ((fun c => c !! "id") <$> categories db)
              ((fun id => Some (VText id)) <$> categoryIds) ->
  Forall (fun c => of_kind KText (c !! "name")) (categories db) ->
  exists db' l,
    reorderCategories clock categoryIds db = (Returned true, db') /\
    getAllCategories db' = (Returned l, db') /\
    (fun c => c !! "id") <$> l = (fun id => Some (VText id)) <$> categoryIds.
Proof.
  intros Hnd Hperm Hname.
  eexists. eexists. unfold reorderCategories.
  rewrite reorder_from_run by done. split; [reflexivity|].
  unfold getAllCategories, bind, ret, Drizzle.select.
  cbn [rows put categoriesT categories]. rewrite List.filter_true.
  split; [destruct db; reflexivity|].
  set (cats' := map (reordered clock 0 categoryIds) (categories db)).
  set (l := Drizzle.orderBy _ cats').
  assert (forall c', c' ∈ cats' ->
            exists s j, c' !! "id" = Some (VText s) /\
              categoryIds !! j = Some s /\
              c' !! "displayOrder" = Some (VInt (Z.of_nat j)) /\
              of_kind KText (c' !! "name")) as Hrows.
  { intros c' Hc'. apply list_elem_of_fmap in Hc' as (c & -> & Hc).
    assert (c !! "id" ∈ (fun id => Some (VText id)) <$> categoryIds) as Hin.
    { rewrite <- Hperm. apply list_elem_of_fmap. eauto. }
    apply list_elem_of_fmap in Hin as (s & Hs & Hsin).
    destruct (reordered_listed clock categoryIds c s Hs Hsin) as (j & Hj & Hd).
    exists s, j. rewrite reordered_id, reordered_name.
    rewrite Forall_forall in Hname. auto. }
  assert (Forall (well_kinded category_order_kinds) cats') as Hk.
  { apply Forall_forall. intros c' Hc'.
    destruct (Hrows c' Hc') as (s & j & _ & _ & Hd & Hn).
    repeat constructor; simpl; [by rewrite Hd|done]. }
  assert (Permutation l cats') as Hl by apply sort_by_perm.
  assert (StronglySorted (stands_before categoryIds) (id_text <$> l)) as Hsorted.
  { apply (StronglySorted_fmap id_text
             (fun a b => stands_before categoryIds (id_text a) (id_text b))
             (stands_before categoryIds)); [done|].
    eapply StronglySorted_weaken;
      [|exact (sort_by_sorted _ _ category_order_lawful cats' Hk)].
    intros a b Ha Hb Hle i j Hi Hj.
    fold l in Ha, Hb. rewrite Hl in Ha, Hb.
    destruct (Hrows a Ha) as (sa & ja & Hia & Hja & Hda & _).
    destruct (Hrows b Hb) as (sb & jb & Hib & Hjb & Hdb & _).
    unfold id_text, text_of in Hi, Hj. rewrite Hia in Hi. rewrite Hib in Hj.
    simpl in Hi, Hj.
    rewrite (NoDup_lookup categoryIds i ja sa Hnd Hi Hja).
    rewrite (NoDup_lookup categoryIds j jb sb Hnd Hj Hjb).
    unfold cmp_le in Hle. simpl in Hle. rewrite Hda, Hdb in Hle. simpl in Hle.
    destruct (Z.compare_spec (Z.of_nat ja) (Z.of_nat jb)); [lia|lia|done]. }
  assert (Permutation (id_text <$> l) categoryIds) as Hids.
  { rewrite Hl. unfold cats'. rewrite <- list_fmap_compose.
    transitivity ((fun o : option value =>
                     match o with Some (VText s) => s | _ => "" end)
                    <$> ((fun c => c !! "id") <$> categories db)).
    - rewrite <- list_fmap_compose.
      replace (id_text ∘ reordered clock 0 categoryIds <$> categories db)
        with ((fun o : option value =>
                 match o with Some (VText s) => s | _ => "" end)
              ∘ (fun c : row => c !! "id") <$> categories db); [done|].
      apply list_fmap_ext. intros _ c _. simpl.
      unfold id_text, text_of. rewrite reordered_id.
      by destruct (c !! "id") as [[]|].
    - rewrite Hperm, <- list_fmap_compose. simpl. by rewrite list_fmap_id. }
  assert (id_text <$> l = categoryIds) as Heq.
  { apply (StronglySorted_unique_strong (stands_before categoryIds));
      [|done|by apply stands_before_sorted|done].
    intros s t Hs Ht Hst Hts.
    rewrite Hids in Hs. apply list_elem_of_lookup in Hs as [i Hi].
    apply list_elem_of_lookup in Ht as [j Hj].
    pose proof (Hst i j Hi Hj). pose proof (Hts j i Hj Hi).
    assert (i = j) as -> by lia. congruence. }
  rewrite <- Heq, <- list_fmap_compose. apply list_fmap_ext. intros i c Hc.
  simpl. apply list_elem_of_lookup_2 in Hc. rewrite Hl in Hc.
  destruct (Hrows c Hc) as (s & _ & Hs & _).
  unfold id_text, text_of. by rewrite Hs.
Qed.
(** * The properties at the shop *)

Ltac of_kinds :=
  unfold well_kinded;
  repeat (apply Forall_cons_2; [vm_compute; done|]); apply Forall_nil_2.

Ltac each_row :=
  simpl; repeat (apply Forall_cons_2; [vm_compute; done|]); apply Forall_nil_2.

Ltac kinded :=
  simpl; repeat (apply Forall_cons_2; [of_kinds|]); apply Forall_nil_2.

Ltac distinct_texts :=
  vm_compute;
  repeat (apply NoDup_cons_2; [not_in_concrete_list|]); apply NoDup_nil_2.

(** Bob signs up in the shop that knows Alice. *)
Lemma createUser_keeps_emails_unique_shop :
  exists res db',
    createUser toy_hash "u-2" "salt" march_10 bob_signup shop = (res, db') /\
    unique_text "email" (users db') /\
    (forall msg, res = Raised msg -> db' = shop) /\
    (forall email u, bob_signup !! "email" = Some (VText email) ->
       u ∈ users shop -> u !! "email" = Some (VText email) ->
       exists msg, res = Raised msg).
Proof.
  apply (createUser_keeps_emails_unique toy_hash shop "u-2" "salt" march_10
           bob_signup).
  unfold unique_text. distinct_texts.
Defined.

(** Bob signs up and logs in. *)
Lemma createUser_then_authenticateUser_bob :
  exists u db',
    createUser toy_hash "u-2" "salt" march_10 bob_signup shop
      = (Returned (Some u), db') /\
    u !! "password" = Some (VText "hash:pw") /\
    authenticateUser toy_compare "bob@example.com" "pw" db'
      = (Returned (Some u), db').
Proof.
  pose (u := Drizzle.new_row usersT (users_defaults "u-2" march_10)
               (<["password" := VText "hash:pw"]> bob_signup)).
  assert (createUser toy_hash "u-2" "salt" march_10 bob_signup shop
          = (Returned (Some u), put usersT (users shop ++ [u])%list shop))
    as Hrun by reflexivity.
  exists u, (put usersT (users shop ++ [u])%list shop).
  split; [exact Hrun|].
  exact (createUser_then_authenticateUser toy_hash toy_compare shop _ "u-2"
           "salt" march_10 bob_signup u "bob@example.com" "pw"
           eq_refl eq_refl eq_refl Hrun).
Defined.

(** Alice changes her password and logs in with the new one. *)
Lemma updateUserPassword_then_authenticateUser_alice :
  exists r db',
    updateUserPassword toy_hash "salt" "u-1" "opal" shop = (Returned r, db') /\
    authenticateUser toy_compare "alice@example.com" "opal" db' =
      (Returned (Some (<["password" := VText "hash:opal"]> alice)), db').
Proof.
  apply (updateUserPassword_then_authenticateUser toy_hash toy_compare shop
           "salt" "u-1" "opal" "alice@example.com" alice); reflexivity.
Defined.

(** A product created inactive is stored but not found. *)
Lemma createProduct_then_getProduct_inactive :
  exists p db',
    createProduct "p-3" march_10 pearl_studs shop = (Returned (Some p), db') /\
    p !! "isActive" = Some (VBool false) /\
    getProduct "p-3" db' = (Returned None, db').
Proof.
  pose (p := Drizzle.new_row productsT (products_defaults "p-3" march_10)
               (<["isActive" := VBool false]> pearl_studs)).
  assert (createProduct "p-3" march_10 pearl_studs shop
          = (Returned (Some p), put productsT (products shop ++ [p])%list shop))
    as Hrun by reflexivity.
  assert (p !! "id" = Some (VText "p-3")) as Hid by reflexivity.
  destruct (createProduct_then_getProduct shop _ "p-3" "p-3" march_10
              pearl_studs p Hrun Hid) as [Hactive Hget].
  exists p, (put productsT (products shop ++ [p])%list shop).
  split; [exact Hrun|]. split; [exact Hactive|].
  rewrite Hget. unfold col. by rewrite Hactive.
Defined.

(** A second estimate in March 2025, the application in Asia/Kolkata and
    the store in UTC. *)
Lemma createEstimate_keeps_month_numbered_march :
  month_numbered (zone_toISOString kolkata) march_24 quoting_shop /\
  exists e2 db2,
    createEstimate toy_parse (zone_toISOString kolkata) "e-2" march_24
      march_24_utc ring_quote quoting_shop = (Returned (Some e2), db2) /\
    month_numbered (zone_toISOString kolkata) march_24 db2 /\
    first_quote !! "quotationNo" <> e2 !! "quotationNo".
Proof.
  assert (month_numbered (zone_toISOString kolkata) march_24 quoting_shop)
    as Hinv by exact (Permutation_refl [first_quote !! "quotationNo"]).
  pose (e2 := Drizzle.new_row estimatesT (estimates_defaults "e-2" march_24_utc)
                (<["validUntil" := VTime (JsDate.mkDate 2025 3 10 0)]>
                   (<["quotationNo" := VText "PJ-QTN-2025-03-002"]> ring_quote))).
  pose (db2 := put estimatesT (estimates quoting_shop ++ [e2])%list quoting_shop).
  assert (createEstimate toy_parse (zone_toISOString kolkata) "e-2" march_24
            march_24_utc ring_quote quoting_shop = (Returned (Some e2), db2))
    as Hrun by reflexivity.
  destruct (createEstimate_keeps_month_numbered toy_parse
              (zone_toISOString kolkata) quoting_shop db2 "e-2" march_24
              march_24_utc ring_quote e2 Hinv Hrun) as (Hinv2 & _ & Hnew).
  split; [exact Hinv|]. exists e2, db2. split; [exact Hrun|].
  split; [exact Hinv2|].
  apply Forall_cons_1 in Hnew as [Hnew _]. apply Hnew. reflexivity.
Defined.

(** The roots of the shop: rings alone. *)
Lemma hierarchy_roots_are_main_categories_shop :
  exists h,
    getCategoriesHierarchy shop = (Returned h, shop) /\
    getMainCategories shop = (Returned (category <$> h), shop).
Proof.
  apply (hierarchy_roots_are_main_categories shop).
  - kinded.
  - each_row.
Defined.

Lemma hierarchy_children_are_sub_categories_shop :
  exists h,
    getCategoriesHierarchy shop = (Returned h, shop) /\
    Forall (fun e => forall id, category e !! "id" = Some (VText id) ->
                       getSubCategories id shop = (Returned (children e), shop)) h.
Proof.
  apply (hierarchy_children_are_sub_categories shop). kinded.
Defined.

Lemma getProductsByCategory_filters_getAllProducts_catalogue :
  exists all,
    getAllProducts catalogue = (Returned all, catalogue) /\
    getProductsByCategory "chains" catalogue =
      (Returned (List.filter (col "category" (VText "chains")) all), catalogue).
Proof.
  apply (getProductsByCategory_filters_getAllProducts catalogue "chains").
  kinded.
Defined.

Lemma getAllProducts_newest_first_catalogue :
  exists l,
    getAllProducts catalogue = (Returned l, catalogue) /\
    Permutation l (List.filter (col "isActive" (VBool true)) (products catalogue)) /\
    StronglySorted newest_first l.
Proof.
  apply (getAllProducts_newest_first catalogue). kinded.
Defined.

Lemma deleteCategory_missing_shop :
  deleteCategory "c-watches" shop = (Returned false, shop).
Proof.
  apply (deleteCategory_missing shop "c-watches"). other_keys.
Defined.

(** Bracelets are created, found and deleted again. *)
Lemma createCategory_round_trip_bracelets :
  exists c db',
    createCategory "c-bracelets" march_10 bracelets shop
      = (Returned (Some c), db') /\
    getCategory "c-bracelets" db' = (Returned (Some c), db') /\
    getCategoryBySlug "bracelets" db' = (Returned (Some c), db') /\
    deleteCategory "c-bracelets" db' = (Returned true, shop).
Proof.
  pose (c := Drizzle.new_row categoriesT (categories_defaults "c-bracelets" march_10)
               (<["updatedAt" := VTime march_10]> bracelets)).
  pose (db' := put categoriesT (categories shop ++ [c])%list shop).
  assert (createCategory "c-bracelets" march_10 bracelets shop
          = (Returned (Some c), db')) as Hrun by reflexivity.
  assert (c !! "id" = Some (VText "c-bracelets")) as Hid
    by reflexivity.
  assert (c !! "slug" = Some (VText "bracelets")) as Hslug
    by reflexivity.
  destruct (createCategory_round_trip shop db' "c-bracelets" "c-bracelets"
              "bracelets" march_10 bracelets c Hrun Hid Hslug)
    as (Hget & Hby & Hdel).
  exists c, db'. split; [exact Hrun|]. split; [exact Hget|].
  split; [exact Hby|]. apply Hdel.
  - rewrite <- (has_child_iff []). vm_compute. discriminate.
  - rewrite <- referenced_iff. vm_compute. discriminate.
Defined.

Lemma reorderCategories_positions_shop :
  exists db',
    reorderCategories rounds ["c-solitaires"; "c-rings"] shop
      = (Returned true, db') /\
    (forall c, c ∈ categories db' -> c !! "id" = Some (VText "c-rings") ->
       c !! "displayOrder" = Some (VInt 1)).
Proof.
  destruct (reorderCategories_positions shop rounds ["c-solitaires"; "c-rings"])
    as (db' & Hrun & _ & Hpos).
  { distinct_texts. }
  exists db'. split; [exact Hrun|]. intros c Hc Hid.
  exact (Hpos 1%nat "c-rings" c eq_refl Hc Hid).
Defined.

Lemma reorderCategories_then_getAllCategories_shop :
  exists db' l,
    reorderCategories rounds ["c-solitaires"; "c-rings"; "c-engagement"] shop
      = (Returned true, db') /\
    getAllCategories db' = (Returned l, db') /\
    (fun c => c !! "id") <$> l =
      [Some (VText "c-solitaires"); Some (VText "c-rings");
       Some (VText "c-engagement")].
Proof.
  apply (reorderCategories_then_getAllCategories shop rounds
           ["c-solitaires"; "c-rings"; "c-engagement"]).
  - distinct_texts.
  - vm_compute.
    symmetry.
    exact (Permutation_cons_append
             [Some (VText "c-rings"); Some (VText "c-engagement")]
             (Some (VText "c-solitaires"))).
  - each_row.
Defined.

Lemma getAllHomeSections_filters_admin_listing_shop :
  exists admin,
    getAllHomeSectionsForAdmin shop = (Returned admin, shop) /\
    getAllHomeSections shop =
      (Returned (List.filter (fun e => col "isActive" (VBool true) (section e))
                   admin), shop).
Proof.
  apply (getAllHomeSections_filters_admin_listing shop). kinded.
Defined.

(** An item for a product nobody sells. *)
Lemma addHomeSectionItem_without_product_ghost :
  exists it db',
    addHomeSectionItem "i-2" march_10 ghost_item shop
      = (Returned (Some it), db') /\
    it ∈ homeSectionItems db' /\
    getHomeSectionItems "s-1" db'
      = (Returned (section_items (VText "s-1") shop), db').
Proof.
  pose (it := Drizzle.new_row homeSectionItemsT
                (homeSectionItems_defaults "i-2" march_10)
                (<["createdAt" := VTime march_10]> ghost_item)).
  pose (db' := put homeSectionItemsT (homeSectionItems shop ++ [it])%list shop).
  assert (addHomeSectionItem "i-2" march_10 ghost_item shop
          = (Returned (Some it), db')) as Hrun by reflexivity.
  assert (it !! "productId" = Some (VText "p-404")) as Hpid
    by reflexivity.
  destruct (addHomeSectionItem_without_product shop db' "i-2" "p-404" march_10
              ghost_item it Hrun Hpid) as [Hin Hshow].
  - other_keys.
  - exists it, db'. split; [exact Hrun|]. split; [exact Hin|]. apply Hshow.
Defined.

Lemma deleteHomeSectionItem_removes_everywhere_shop :
  exists b db',
    deleteHomeSectionItem "i-1" shop = (Returned b, db') /\
    (b = true <->
     exists i, i ∈ homeSectionItems shop /\ i !! "id" = Some (VText "i-1")) /\
    forall sectionId,
      getHomeSectionItems sectionId db' =
        (Returned
           (List.filter (fun e => negb (col "id" (VText "i-1") (item e)))
              (section_items (VText sectionId) shop)), db').
Proof.
  apply (deleteHomeSectionItem_removes_everywhere shop "i-1"). kinded.
Defined.

(** Searching the two estimates for a phone number. *)
Lemma filteredEstimates_search_phone :
  ring_estimate ∈
    filteredEstimates toy_lower (Some [ring_estimate; chain_estimate]) "4501".
Proof.
  destruct (filteredEstimates_search toy_lower
              (Some [ring_estimate; chain_estimate]) "4501" eq_refl)
    as (_ & _ & Hphone).
  apply Forall_cons_1 in Hphone as [Hring _].
  apply Hring. exists "98", "2345". reflexivity.
Defined.
